(** * spacy-transformers: the encoder stage, its listeners and the HF shim

    A shallow embedding of
      - [spacy_transformers/layers/split_trf.py]  (split / merge layer),
      - [spacy_transformers/pipeline.py]          (Transformer, TransformerListener),
      - [spacy_transformers/layers/hf_shim.py]    (HFShim.to_bytes / from_bytes),
    followed by the properties of the design document that concern them.

    Conventions of the embedding.
      - Python exceptions are values of [exn]; code that may raise returns
        [result A].
      - Array elements are floats in the source.  They are kept abstract: a
        type [R] with the operations the code uses ([NumOps]); no law of
        arithmetic is assumed, so every statement holds for floating point
        addition as well as for exact numbers.
      - numpy arrays that the code adds into in place live in a store
        ([gmap addr (tensor2 R)]); Python lists of arrays are lists of addresses. *)

From stdpp Require Import gmap strings list fin_maps.
From Stdlib Require Import ZArith Lia Permutation.

Set Default Proof Using "Type".
Local Open Scope Z_scope.

(* ===================================================================== *)
(** * Part I: definitions                                                 *)
(* ===================================================================== *)

(** ** Python exceptions and fallible results *)

Inductive value_error :=
  | NoMessage
  | MismatchedIDs (batch_id : Z) (stored : option Z)
  | ShapeMismatch.

Inductive exn :=
  | ValueError (msg : value_error)
  | IndexError
  | KeyError (key : string)
  | TypeError
  | AttributeError
  | ExternalError (origin : string).

Inductive result (A : Type) :=
  | Ok (a : A)
  | Raise (e : exn).
Arguments Ok {A} a.
Arguments Raise {A} e.

#[global] Instance result_ret : MRet result := λ A a, Ok a.
#[global] Instance result_bind : MBind result := λ A B k m,
  match m with
  | Ok a => k a
  | Raise e => Raise e
  end.

Definition is_ok {A} (m : result A) : bool :=
  match m with Ok _ => true | Raise _ => false end.

(** ** Array elements *)

Class NumOps (R : Type) := {
  rzero : R;
  radd : R → R → R;
  (** [float((a ** 2).sum())] of the rows of an array *)
  sq_sum : list (list R) → R;
}.

#[global] Instance Z_NumOps : NumOps Z := {|
  rzero := 0;
  radd := Z.add;
  sq_sum := λ a, foldr Z.add 0 ((λ x, x * x) <$> concat a);
|}.

(** ** Tensor Batch Model *)

(** A two-dimensional array (wordpiece position × hidden width) and a padded
    batch of them (document × position × width). *)
Abbreviation tensor2 R := (list (list R)) (only parsing).
Abbreviation tensor3 R := (list (list (list R))) (only parsing).

(** Modelled from the spec: [TransformerData] (PerDocumentOutput) is declared
    in [util.py] / [data_classes.py], which are not among the sources.  One
    document's slice: its wordpiece tokens, the alignment from document
    tokens to wordpiece indices, and one array per output layer.  The type of
    the arrays is a parameter: values here, addresses into the array store in
    the training step. *)
Record TransformerData (T : Type) := mkTransformerData {
  tokens : list string;
  align : list (list nat);
  tensors : list T;
}.
Arguments mkTransformerData {T}.
Arguments tokens {T}.
Arguments align {T}.
Arguments tensors {T}.

(** Modelled from the spec: [TransformerData.empty()], the distinguished
    empty PerDocumentOutput (zero wordpieces, no arrays). *)
Definition TransformerData_empty {T} : TransformerData T :=
  mkTransformerData [] [] [].

Section TensorBatchModel.
Context {R : Type} `{!NumOps R}.


(** Elementwise addition of two arrays of the same shape. *)
Definition t2_add (a b : tensor2 R) : tensor2 R :=
  zip_with (zip_with radd) a b.

(** numpy's [a += b] on two-dimensional arrays.  The result has the shape
    of [a]; [b] is broadcast to it: along each axis [b] has the extent of
    [a], or extent one, which is then repeated.  Anything else is numpy's
    ValueError.  Both arrays hold elements of the one type [R], so no
    casting is involved.  An array is the list of its rows, so the width of
    an array without rows is not represented and cannot be compared. *)
Definition row_iadd (ra rb : list R) : result (list R) :=
  if decide (length rb = length ra) then Ok (zip_with radd ra rb)
  else match rb with
       | [y] => Ok ((λ x, radd x y) <$> ra)
       | _ => Raise (ValueError ShapeMismatch)
       end.

Fixpoint rows_iadd (a b : tensor2 R) : result (tensor2 R) :=
  match a, b with
  | ra :: a', rb :: b' =>
    r ← row_iadd ra rb; rest ← rows_iadd a' b'; Ok (r :: rest)
  | _, _ => Ok []
  end.

Fixpoint rows_iadd_one (a : tensor2 R) (rb : list R) : result (tensor2 R) :=
  match a with
  | [] => Ok []
  | ra :: a' =>
    r ← row_iadd ra rb; rest ← rows_iadd_one a' rb; Ok (r :: rest)
  end.

Definition t2_iadd (a b : tensor2 R) : result (tensor2 R) :=
  if decide (length b = length a) then rows_iadd a b
  else match b with
       | [rb] => rows_iadd_one a rb
       | _ => Raise (ValueError ShapeMismatch)
       end.

(** Modelled from the spec: [FullTransformerBatch] (BatchOutput).
    [batch_tokens] and [batch_align] are what the tokenizer recorded per
    document; a document's wordpiece span is the length of its entry of
    [batch_tokens].  [model_tensors] are the encoder's padded outputs, each
    of shape (documents × seq_len × width). *)
Record FullTransformerBatch := mkFullTransformerBatch {
  batch_tokens : list (list string);
  batch_align : list (list (list nat));
  seq_len : nat;
  width : nat;
  model_tensors : list (tensor3 R);
}.

Definition zero_row (w : nat) : list R := replicate w rzero.

(** Modelled from the spec: split.  "for each document, slice model_tensors
    along the sequence axis to the document's wordpiece span"; "If the input
    document list is empty, produces a single-element sequence containing
    the distinguished empty PerDocumentOutput". *)
Definition doc_data (b : FullTransformerBatch) : list (TransformerData (tensor2 R)) :=
  match batch_tokens b with
  | [] => [TransformerData_empty]
  | _ =>
    imap (λ i wps,
            mkTransformerData wps (batch_align b !!! i)
              ((λ t : tensor3 R, take (length wps) (t !!! i)) <$> model_tensors b))
         (batch_tokens b)
  end.

(** Modelled from the spec: merge.  "scatter each document's gradient tensor
    back into its original position in the padded batch tensor, zero-filling
    padding positions"; a document without a gradient slice "contributes an
    all-zero slice". *)
Definition scatter (len w n : nat) (slice : tensor2 R) : tensor2 R :=
  (λ p, if decide (p < n)%nat then default (zero_row w) (slice !! p)
        else zero_row w) <$> seq 0 len.

(** Modelled from the spec: what merge accepts.  "Shape/dimension
    mismatches inside merge/split ... propagate unchanged rather than being
    swallowed": there is one gradient entry per PerDocumentOutput that split
    produced; an entry is empty (it then "contributes an all-zero slice"),
    or it has one array per model tensor, each with one row per wordpiece
    of its document.  Rows are copied as they are. *)
Definition entry_fits (b : FullTransformerBatch) (i : nat)
    (entry : list (tensor2 R)) : bool :=
  match entry with
  | [] => true
  | _ =>
    match batch_tokens b !! i with
    | Some wps =>
      bool_decide (length entry = length (model_tensors b))
      && forallb (λ a : tensor2 R, bool_decide (length a = length wps)) entry
    | None => false
    end
  end.

Definition merge_fits (b : FullTransformerBatch)
    (arrays : list (list (tensor2 R))) : bool :=
  bool_decide (length arrays = length (doc_data b))
  && forallb (λ x, x) (imap (entry_fits b) arrays).

(** Modelled from the spec: merge, [unsplit_by_doc].  Gradient entries that
    fit are scattered into one padded tensor per model tensor; entries that
    do not fit raise. *)
Definition unsplit_by_doc (b : FullTransformerBatch)
    (arrays : list (list (tensor2 R))) : result (list (tensor3 R)) :=
  if merge_fits b arrays then
    Ok (imap (λ j _,
                imap (λ i wps,
                        scatter (seq_len b) (width b) (length wps)
                                (default [] (arrays !! i ≫= (.!! j))))
                     (batch_tokens b))
             (model_tensors b))
  else Raise (ValueError ShapeMismatch).

(** A batch-shaped gradient with its padding positions set to zero. *)
Definition mask_padding (b : FullTransformerBatch) (g : list (tensor3 R)) : list (tensor3 R) :=
  (λ t : tensor3 R,
     imap (λ i rows,
             imap (λ p v, if decide (p < length (batch_tokens b !!! i))%nat
                          then v else zero_row (width b)) rows) t) <$> g.

(** [g] has the shape of the batch: one row block per document, [seq_len]
    positions each; and no document has more wordpieces than [seq_len]. *)
Definition batch_shaped (b : FullTransformerBatch) (g : list (tensor3 R)) : Prop :=
  Forall (λ t : tensor3 R,
            length t = length (batch_tokens b) ∧
            Forall (λ rows : tensor2 R, length rows = seq_len b) t) g ∧
  Forall (λ wps : list string, (length wps ≤ seq_len b)%nat) (batch_tokens b).

Definition with_tensors (b : FullTransformerBatch) (g : list (tensor3 R)) :=
  mkFullTransformerBatch (batch_tokens b) (batch_align b) (seq_len b) (width b) g.

(** [layers/split_trf.py], [forward]: the outputs are [trf_full.doc_data],
    the backward pass merges the arrays of the per-document gradients. *)
Definition split_trf_forward (trf_full : FullTransformerBatch)
  : list (TransformerData (tensor2 R))
    * (list (TransformerData (tensor2 R)) → result (list (tensor3 R))) :=
  let backprop d_trf_datas := unsplit_by_doc trf_full (tensors <$> d_trf_datas) in
  (doc_data trf_full, backprop).

End TensorBatchModel.

(** ** Documents *)

(** A token carries its [orth], the 64-bit hash of its text, read as a
    Python integer (sums of them do not wrap). *)
Record Token := mkToken { orth : Z }.

(** Addresses of numpy arrays and of listener objects. *)
Abbreviation addr := nat (only parsing).
Abbreviation lref := nat (only parsing).

Section Pipeline.
Context {R : Type} `{!NumOps R}.

(** [trf_data] is the extension attribute [doc._.trf_data]: the value
    registered as its default until [set_annotations] assigns it. *)
Record Doc := mkDoc {
  doc_tokens : list Token;
  trf_data : TransformerData (tensor2 R);
}.

Record Example := mkExample { eg_doc : Doc }.

(** [spacy.util.eg2doc]: the stream of [pipe] holds documents, or examples
    that wrap one. *)
Inductive stream_item :=
  | ItemDoc (d : Doc)
  | ItemExample (e : Example).

Definition eg2doc (x : stream_item) : Doc :=
  match x with
  | ItemDoc d => d
  | ItemExample e => eg_doc e
  end.

(** ** Callables handed around by the pipeline

    The gradient acceptors are closures: the two inner functions of
    [Transformer.update], which share that call's local variables
    ([train_step] below), and the [lambda d_data: docs] of the listener's
    [forward]. *)
Inductive callback :=
  | CbAccumulateGradient
  | CbBackprop
  | CbLambdaDocs (docs : list Doc).

(** What a callable returns. *)
Inductive pyobj :=
  | PyNone
  | PyDocs (docs : list Doc)
  | PyData (d_data : list (TransformerData addr)).

(** The token identities of a batch, in reading order. *)
Definition batch_orths (inputs : list Doc) : list Z :=
  concat ((λ doc, orth <$> doc_tokens doc) <$> inputs).

(** ** TransformerListener *)

Record TransformerListener := mkTransformerListener {
  upstream_name : string;
  nO : nat;
  _batch_id : option Z;
  _outputs : option (list (TransformerData (tensor2 R)));
  _backprop : option callback;
}.

Definition TransformerListener_init (upstream_name : string) (width : nat) :=
  mkTransformerListener upstream_name width None None None.

(** [sum(...)] of Python integers. *)
Definition py_sum (l : list Z) : Z := foldl Z.add 0 l.

Definition get_batch_id (inputs : list Doc) : Z :=
  py_sum ((λ doc, py_sum (orth <$> doc_tokens doc)) <$> inputs).

Definition receive (batch_id : Z)
    (outputs : list (TransformerData (tensor2 R))) (backprop : option callback)
    (self : TransformerListener) : TransformerListener :=
  mkTransformerListener (upstream_name self) (nO self)
                        (Some batch_id) (Some outputs) backprop.

Definition verify_inputs (self : TransformerListener) (inputs : list Doc)
  : result bool :=
  match _batch_id self, _outputs self with
  | None, None => Raise (ValueError NoMessage)
  | stored, _ =>
    let batch_id := get_batch_id inputs in
    if bool_decide (Some batch_id ≠ stored)
    then Raise (ValueError (MismatchedIDs batch_id stored))
    else Ok true
  end.

(** The listener's [forward] (module level function of [pipeline.py]). *)
Definition forward (model : TransformerListener) (docs : list Doc)
    (is_train : bool)
  : result (option (list (TransformerData (tensor2 R))) * option callback) :=
  if is_train then
    _ ← verify_inputs model docs;
    Ok (_outputs model, _backprop model)
  else if bool_decide (length docs = 0%nat) then
    Ok (Some [TransformerData_empty], Some (CbLambdaDocs docs))
  else
    Ok (Some (trf_data <$> docs), Some (CbLambdaDocs docs)).

(** ** One training step: the local state of a call of [update] *)

Record train_step := mkTrainStep {
  self_name : string;
  trf_full : FullTransformerBatch (R:=R);
  bp_trf_full : list (tensor3 R) → result (list Doc);
  finish_update : result unit;         (* [self.model.finish_update(sgd)] *)
  sgd : bool;                          (* [sgd is not None] *)
  losses : gmap string R;
  d_tensors : list (list addr);
  arrays : gmap addr (tensor2 R);      (* the numpy arrays, by address *)
  bp_trf_full_calls : list (list (tensor3 R));   (* arguments, latest first *)
  finish_update_calls : nat;
}.

Definition set_losses (st : train_step) (l : gmap string R) : train_step :=
  mkTrainStep (self_name st) (trf_full st) (bp_trf_full st) (finish_update st)
              (sgd st) l (d_tensors st) (arrays st) (bp_trf_full_calls st)
              (finish_update_calls st).

Definition set_d_tensors (st : train_step) (d : list (list addr)) : train_step :=
  mkTrainStep (self_name st) (trf_full st) (bp_trf_full st) (finish_update st)
              (sgd st) (losses st) d (arrays st) (bp_trf_full_calls st)
              (finish_update_calls st).

Definition set_arrays (st : train_step) (h : gmap addr (tensor2 R)) : train_step :=
  mkTrainStep (self_name st) (trf_full st) (bp_trf_full st) (finish_update st)
              (sgd st) (losses st) (d_tensors st) h (bp_trf_full_calls st)
              (finish_update_calls st).

Definition from_option_exn {A} (e : exn) (o : option A) : result A :=
  match o with Some a => Ok a | None => Raise e end.

(** [for d_tensor in d_trf_data.tensors:
       losses[self.name] += float((d_tensor ** 2).sum())] *)
Fixpoint add_losses (ts : list addr) (st : train_step) : result train_step :=
  match ts with
  | [] => Ok st
  | d_tensor :: ts' =>
    v ← from_option_exn (KeyError (self_name st)) (losses st !! self_name st);
    add_losses ts'
      (set_losses st (<[self_name st := radd v (sq_sum (arrays st !!! d_tensor))]>
                        (losses st)))
  end.

(** [target += src] on numpy arrays: the sum is written into the array at
    [target]. *)
Definition iadd (target src : addr) (h : gmap addr (tensor2 R))
  : result (gmap addr (tensor2 R)) :=
  v ← t2_iadd (h !!! target) (h !!! src);
  Ok (<[target := v]> h).

(** [for j, d_tensor in enumerate(d_trf_data.tensors):
       d_tensors[i][j] += d_tensor], with [row] the list [d_tensors[i]]. *)
Fixpoint iadd_tensors (row : list addr) (j : nat) (ts : list addr)
    (h : gmap addr (tensor2 R)) : result (gmap addr (tensor2 R)) :=
  match ts with
  | [] => Ok h
  | d_tensor :: ts' =>
    target ← from_option_exn IndexError (row !! j);
    h' ← iadd target d_tensor h;
    iadd_tensors row (S j) ts' h'
  end.

(** The loop of [accumulate_gradient], from index [i] on. *)
Fixpoint accumulate_loop (i : nat) (d_trf_datas : list (TransformerData addr))
    (st : train_step) : result train_step :=
  match d_trf_datas with
  | [] => Ok st
  | d_trf_data :: rest =>
    st1 ← add_losses (tensors d_trf_data) st;
    st2 ← (if decide (length (d_tensors st1) ≤ i)%nat
           then Ok (set_d_tensors st1 (d_tensors st1 ++ [tensors d_trf_data]))
           else
             row ← from_option_exn IndexError (d_tensors st1 !! i);
             h ← iadd_tensors row 0 (tensors d_trf_data) (arrays st1);
             Ok (set_arrays st1 h));
    accumulate_loop (S i) rest st2
  end.

Definition accumulate_gradient (d_trf_datas : list (TransformerData addr))
    (st : train_step) : result train_step :=
  accumulate_loop 0 d_trf_datas st.

(** The arrays the accumulator refers to, read from the store. *)
Definition read_row (h : gmap addr (tensor2 R)) (row : list addr)
  : list (tensor2 R) :=
  (λ a, h !!! a) <$> row.

Definition read_arrays (h : gmap addr (tensor2 R)) (refs : list (list addr))
  : list (list (tensor2 R)) :=
  read_row h <$> refs.

(** The step once the encoder's backward callable has been called on
    [d_trf_full] and, with an optimizer, [finish_update] has run. *)
Definition after_backward (st : train_step) (d_trf_full : list (tensor3 R))
  : train_step :=
  mkTrainStep (self_name st) (trf_full st) (bp_trf_full st) (finish_update st)
    (sgd st) (losses st) (d_tensors st) (arrays st)
    (d_trf_full :: bp_trf_full_calls st)
    (if sgd st then S (finish_update_calls st) else finish_update_calls st).

(** [backprop]: the merge, the encoder's backward callable and the
    optimizer step can each raise, and what they raise propagates. *)
Definition backprop (d_trf_datas : list (TransformerData addr))
    (st : train_step) : result (list Doc * train_step) :=
  st1 ← accumulate_gradient d_trf_datas st;
  d_trf_full ←
    unsplit_by_doc (trf_full st1) (read_arrays (arrays st1) (d_tensors st1));
  d_docs ← bp_trf_full st1 d_trf_full;
  _ ← (if sgd st1 then finish_update st1 else Ok ());
  Ok (d_docs, after_backward st1 d_trf_full).

(** What [backprop] does once the last contribution is accumulated. *)
Definition dispatch (st : train_step) : result (list Doc * train_step) :=
  d_trf_full ←
    unsplit_by_doc (trf_full st) (read_arrays (arrays st) (d_tensors st));
  d_docs ← bp_trf_full st d_trf_full;
  _ ← (if sgd st then finish_update st else Ok ());
  Ok (d_docs, after_backward st d_trf_full).

(** Calling a callable on a list of per-document gradients. *)
Definition call (cb : callback) (d_data : list (TransformerData addr))
    (st : train_step) : result (pyobj * train_step) :=
  match cb with
  | CbAccumulateGradient =>
    st' ← accumulate_gradient d_data st; Ok (PyNone, st')
  | CbBackprop =>
    '(d_docs, st') ← backprop d_data st; Ok (PyDocs d_docs, st')
  | CbLambdaDocs docs => Ok (PyDocs docs, st)
  end.

(** A sequence of invocations by the listeners' owners, in the order
    given. *)
Fixpoint call_all (calls : list (callback * list (TransformerData addr)))
    (st : train_step) : result train_step :=
  match calls with
  | [] => Ok st
  | (cb, d_data) :: rest =>
    '(_, st') ← call cb d_data st; call_all rest st'
  end.

(** *** Gradient contributions

    A listener's contribution is the list of per-document gradients it
    passes to its acceptor.  Its arrays, their addresses, their shapes (the
    row lengths of every array), and the position-wise sum of the
    contributions of several listeners, taken in the given order. *)
Definition grad_refs (c : list (TransformerData addr)) : list addr :=
  concat (tensors <$> c).

Definition grad_arrays (h : gmap addr (tensor2 R))
    (c : list (TransformerData addr)) : list (list (tensor2 R)) :=
  read_arrays h (tensors <$> c).

Definition shapes (vals : list (list (tensor2 R))) : list (list (list nat)) :=
  (λ row : list (tensor2 R), (λ a : tensor2 R, length <$> a) <$> row) <$> vals.

Definition grad_sum (h : gmap addr (tensor2 R))
    (cs : list (list (TransformerData addr))) : list (list (tensor2 R)) :=
  match cs with
  | [] => []
  | c1 :: rest =>
    foldl (zip_with (zip_with t2_add)) (grad_arrays h c1) (grad_arrays h <$> rest)
  end.

(** The acceptors of [K] listeners, in listener order. *)
Definition acceptors_in_order (K : nat) : list callback :=
  replicate (K - 1) CbAccumulateGradient ++ [CbBackprop].

(** The listeners' contributions accumulated one after the other. *)
Fixpoint accumulate_all (cs : list (list (TransformerData addr)))
    (st : train_step) : result train_step :=
  match cs with
  | [] => Ok st
  | c :: cs' => st' ← accumulate_gradient c st; accumulate_all cs' st'
  end.

(** ** Transformer *)

(** The wrapped thinc model, by the operations the component calls.
    [begin_update] returns the batch and the encoder's backward callable;
    [model_finish_update] is what [finish_update] does when it is called. *)
Record ThincModel := mkThincModel {
  model_predict : list Doc → result (FullTransformerBatch (R:=R));
  model_begin_update :
    list Doc →
    result (FullTransformerBatch (R:=R)
            * (list (tensor3 R) → result (list Doc)));
  model_finish_update : result unit;
}.

Record Transformer := mkTransformer {
  name : string;
  model : ThincModel;
  annotation_setter : list Doc → FullTransformerBatch (R:=R) → list Doc;
  cfg_max_batch_size : Z;
  listeners : list lref;
}.

(** [null_annotation_setter] of [util.py]: does nothing. *)
Definition null_annotation_setter (docs : list Doc)
    (predictions : FullTransformerBatch (R:=R)) : list Doc := docs.

Definition add_listener (self : Transformer) (listener : lref) : Transformer :=
  mkTransformer (name self) (model self) (annotation_setter self)
                (cfg_max_batch_size self) (listeners self ++ [listener]).

(** [for listener in ls: listener.receive(batch_id, outputs, cb)] on the
    store of listener objects. *)
Definition receive_all (ls : list lref) (batch_id : Z)
    (outputs : list (TransformerData (tensor2 R))) (cb : option callback)
    (store : gmap lref TransformerListener) : gmap lref TransformerListener :=
  foldl (λ s l, alter (receive batch_id outputs cb) l s) store ls.

Definition predict (self : Transformer) (docs : list Doc)
    (store : gmap lref TransformerListener)
  : result (FullTransformerBatch (R:=R) * gmap lref TransformerListener) :=
  activations ← model_predict (model self) docs;
  let batch_id := get_batch_id docs in
  Ok (activations,
      receive_all (listeners self) batch_id (doc_data activations) None store).

(** [for doc, data in zip(docs, predictions.doc_data): doc._.trf_data = data]
    and then the annotation setter. *)
Definition set_annotations (self : Transformer) (docs : list Doc)
    (predictions : FullTransformerBatch (R:=R)) : list Doc :=
  let docs' :=
    imap (λ i doc, match doc_data predictions !! i with
                   | Some data => mkDoc (doc_tokens doc) data
                   | None => doc
                   end) docs in
  annotation_setter self docs' predictions.

(** [self.listeners[:-1]] and [self.listeners[-1]]. *)
Definition all_but_last {A} (l : list A) : list A := take (length l - 1) l.
Definition last_item {A} (l : list A) : result A :=
  from_option_exn IndexError (last l).

(** The acceptor each listener of [ls] holds. *)
Definition handed_acceptors (store : gmap lref TransformerListener)
    (ls : list lref) : list (option callback) :=
  (λ l, store !! l ≫= _backprop) <$> ls.

(** [Transformer.update].  The result is the listener store after the
    broadcast, the local state the two acceptors close over, and the
    documents (annotated when [set_annotations] is set).  [h] is the array
    store at the time of the call; [update] itself does not touch it.
    [Example.to_example_objects] and [set_dropout_rate] belong to spaCy and
    thinc and leave no trace here; the [isinstance(docs, Doc)] branch cannot
    be taken, [docs] being a list. *)
Definition update (self : Transformer) (examples : list Example)
    (sgd : bool) (losses : option (gmap string R)) (set_annots : bool)
    (h : gmap addr (tensor2 R)) (store : gmap lref TransformerListener)
  : result (gmap lref TransformerListener * train_step * list Doc) :=
  let losses := default ∅ losses in
  let docs := eg_doc <$> examples in
  '(trf_full, bp_trf_full) ← model_begin_update (model self) docs;
  let losses :=
    match losses !! name self with
    | Some _ => losses
    | None => <[name self := rzero]> losses
    end in
  let st := mkTrainStep (name self) trf_full bp_trf_full
                        (model_finish_update (model self)) sgd losses [] h [] 0 in
  let batch_id := get_batch_id docs in
  let store1 :=
    receive_all (all_but_last (listeners self)) batch_id (doc_data trf_full)
                (Some CbAccumulateGradient) store in
  last_listener ← last_item (listeners self);
  let store2 :=
    alter (receive batch_id (doc_data trf_full) (Some CbBackprop))
          last_listener store1 in
  let docs' := if set_annots then set_annotations self docs trf_full else docs in
  Ok (store2, st, docs').

(** [sys.maxsize] of CPython on a 64-bit platform. *)
Definition sys_maxsize : Z := 2 ^ 63 - 1.

(** [spacy.util.minibatch] with an integer size: successive slices of
    [size] items until the stream is exhausted.  [itertools.islice] raises
    ValueError for a size below 0 or above [sys.maxsize]. *)
Fixpoint minibatch_slices {A} (fuel size : nat) (items : list A) : list (list A) :=
  match fuel with
  | O => []
  | S fuel' =>
    match take size items with
    | [] => []
    | batch => batch :: minibatch_slices fuel' size (drop size items)
    end
  end.

Definition minibatch {A} (items : list A) (size : Z) : result (list (list A)) :=
  if bool_decide (size < 0 ∨ sys_maxsize < size) then Raise (ValueError NoMessage)
  else Ok (minibatch_slices (length items) (Z.to_nat size) items).

Definition is_doc (x : stream_item) : bool :=
  match x with ItemDoc _ => true | ItemExample _ => false end.

(** The documents of a batch.  With [as_example] every item goes through
    [eg2doc]; without it the batch itself is used as the list of documents,
    so an item that is not a document is a type error downstream. *)
Fixpoint batch_docs (as_example : bool) (batch : list stream_item)
  : result (list Doc) :=
  match batch with
  | [] => Ok []
  | x :: rest =>
    d ← (if as_example then Ok (eg2doc x)
         else match x with
              | ItemDoc d => Ok d
              | ItemExample _ => Raise TypeError
              end);
    ds ← batch_docs as_example rest;
    Ok (d :: ds)
  end.

(** What a run of [pipe] leaves behind: the argument of every call of
    [predict], the documents of every batch after annotation (in the order
    the batches are yielded), and the listener store. *)
Record pipe_trace := mkPipeTrace {
  predict_calls : list (list Doc);
  yielded : list (list Doc);
  pipe_store : gmap lref TransformerListener;
}.

Fixpoint pipe_loop (self : Transformer) (as_example : bool)
    (batches : list (list stream_item)) (tr : pipe_trace) : result pipe_trace :=
  match batches with
  | [] => Ok tr
  | batch :: rest =>
    docs ← batch_docs as_example batch;
    '(outputs, store') ← predict self docs (pipe_store tr);
    let docs' := set_annotations self docs outputs in
    pipe_loop self as_example rest
      (mkPipeTrace (predict_calls tr ++ [docs]) (yielded tr ++ [docs']) store')
  end.

(** [Transformer.pipe], run to exhaustion. *)
Definition pipe (self : Transformer) (stream : list stream_item)
    (batch_size : Z) (as_example : bool)
    (store : gmap lref TransformerListener) : result pipe_trace :=
  let batch_size := Z.max batch_size (cfg_max_batch_size self) in
  batches ← minibatch stream batch_size;
  pipe_loop self as_example batches (mkPipeTrace [] [] store).

End Pipeline.

(** ** HFShim: the serialization codec *)

(** The values [srsly.msgpack] carries. *)
#[warnings="-register-all"] Inductive value :=
  | VNone
  | VBool (b : bool)
  | VInt (z : Z)
  | VStr (s : string)
  | VBytes (b : list Byte.byte)
  | VList (l : list value)
  | VDict (d : gmap string value).

(** Python truth value, as tested by [if config_dict:]. *)
Definition truthy (v : value) : bool :=
  match v with
  | VNone => false
  | VBool b => b
  | VInt z => negb (z =? 0)
  | VStr s => negb (String.eqb s "")
  | VBytes b => negb (length b =? 0)%nat
  | VList l => negb (length l =? 0)%nat
  | VDict d => negb (size d =? 0)%nat
  end.

(** [msg[key]] *)
Definition getitem (msg : value) (key : string) : result value :=
  match msg with
  | VDict d => from_option_exn (KeyError key) (d !! key)
  | _ => Raise TypeError
  end.

(** [**kwargs] needs a mapping. *)
Definition as_kwargs (v : value) : result (gmap string value) :=
  match v with
  | VDict d => Ok d
  | _ => Raise TypeError
  end.

(** [srsly.msgpack_dumps] / [srsly.msgpack_loads], by their contract. *)
Class Msgpack := {
  blob : Type;
  msgpack_dumps : value → blob;
  msgpack_loads : blob → result value;
  msgpack_loads_dumps v : msgpack_loads (msgpack_dumps v) = Ok v;
}.

(** A live encoder, by what [to_bytes] reads from it:
    [transformer.config.to_dict()] and the bytes [torch.save] writes for its
    [state_dict()]. *)
Record HFTransformer := mkHFTransformer {
  hf_config : gmap string value;
  hf_state : list Byte.byte;
}.

(** A tokenizer, by the files [save_pretrained] writes (name and content,
    in the order [glob] lists them). *)
Record HFTokenizer := mkHFTokenizer {
  saved_files : list (string * list Byte.byte);
}.

Record HFObjects := mkHFObjects {
  transformer : option HFTransformer;
  tokenizer : option HFTokenizer;
  tokenizer_config : gmap string value;
  transformer_config : gmap string value;
}.

(** [_model] is the attribute of [PyTorchShim]; [__init__] sets it to
    [model.transformer]. *)
Record HFShim := mkHFShim {
  _hfmodel : HFObjects;
  _model : option HFTransformer;
}.

Definition HFShim_init (model : HFObjects) : HFShim :=
  mkHFShim model (transformer model).

(** The reconstruction steps of [from_bytes] that belong to the
    [transformers] and [torch] libraries. *)
Class HuggingFace := {
  auto_config : Type;
  (** the temporary directory: [AutoConfig.from_pretrained] on the written
      [config.json], then [AutoTokenizer.from_pretrained] on the written
      tokenizer files with [**tok_config] *)
  auto_from_pretrained :
    value → value → gmap string value → result (auto_config * HFTokenizer);
  (** [AutoModel.from_config] *)
  auto_model_from_config : auto_config → result HFTransformer;
  (** [load_state_dict(torch.load(...))] and the move to the device *)
  load_state_dict : HFTransformer → value → result HFTransformer;
}.

Definition bundle_keys : gset string :=
  {[ "config"; "state"; "tokenizer"; "tokenizer_config"; "transformer_config" ]}.

Section Shim.
Context `{!Msgpack} `{!HuggingFace}.

(** The dictionary [msg] that [to_bytes] builds. *)
Definition to_bytes_msg (self : HFShim) : result (gmap string value) :=
  let hf_model := _hfmodel self in
  '(config, tok_dict, weights_bytes) ←
    match transformer hf_model with
    | Some trf =>
      tokenizer ← from_option_exn AttributeError (tokenizer hf_model);
      let tok_dict :=
        foldl (λ (d : gmap string value) x, <[x.1 := VBytes x.2]> d) ∅
              (saved_files tokenizer) in
      m ← from_option_exn AttributeError (_model self);
      Ok (VDict (hf_config trf), VDict tok_dict, VBytes (hf_state m))
    | None => Ok (VDict ∅, VDict ∅, VDict ∅)
    end;
  Ok (<["config" := config]>
      (<["state" := weights_bytes]>
      (<["tokenizer" := tok_dict]>
      (<["tokenizer_config" := VDict (tokenizer_config hf_model)]>
      (<["transformer_config" := VDict (transformer_config hf_model)]> ∅))))).

Definition to_bytes (self : HFShim) : result blob :=
  msg ← to_bytes_msg self;
  Ok (msgpack_dumps (VDict msg)).

Definition from_bytes (self : HFShim) (bytes_data : blob) : result HFShim :=
  msg ← msgpack_loads bytes_data;
  config_dict ← getitem msg "config";
  tok_dict ← getitem msg "tokenizer";
  tok_config ← getitem msg "tokenizer_config";
  trf_config ← getitem msg "transformer_config";
  if truthy config_dict then
    tok_kwargs ← as_kwargs tok_config;
    '(config, tokenizer) ← auto_from_pretrained config_dict tok_dict tok_kwargs;
    transformer ← auto_model_from_config config;
    trf_kwargs ← as_kwargs trf_config;
    state ← getitem msg "state";
    loaded ← load_state_dict transformer state;
    Ok (mkHFShim (mkHFObjects (Some loaded) (Some tokenizer) tok_kwargs trf_kwargs)
                 (Some loaded))
  else Ok self.

(** The codec holds a live model when either reference to the encoder is
    set. *)
Definition holds_live_model (self : HFShim) : bool :=
  bool_decide (is_Some (transformer (_hfmodel self)))
  || bool_decide (is_Some (_model self)).

End Shim.

(** ** Further definitions: registration, loss, bundle keys *)

(** A node of the computation graph [find_listeners] walks: a listener
    object, or any other layer. *)
Inductive graph_node :=
  | NodeListener (l : lref)
  | NodeOther.

Section PipelineMore.
Context {R : Type} `{!NumOps R}.

(** [Transformer.find_listeners], on the nodes in the order [model.walk()]
    yields them. *)
Definition find_listeners (self : Transformer (R:=R)) (nodes : list graph_node)
    (store : gmap lref (TransformerListener (R:=R))) : Transformer (R:=R) :=
  foldl (λ s node,
           match node with
           | NodeListener l =>
             match store !! l with
             | Some x =>
               if bool_decide (upstream_name x = name s) then add_listener s l
               else s
             | None => s
             end
           | NodeOther => s
           end) self nodes.

(** The listeners among [nodes] that name [upstream] as their source. *)
Definition matching_listeners (upstream : string) (nodes : list graph_node)
    (store : gmap lref (TransformerListener (R:=R))) : list lref :=
  omap (λ node,
          match node with
          | NodeListener l =>
            match store !! l with
            | Some x => if bool_decide (upstream_name x = upstream) then Some l
                        else None
            | None => None
            end
          | NodeOther => None
          end) nodes.

(** The loss after the arrays [refs], read from [h], have been counted. *)
Definition loss_after (h : gmap addr (tensor2 R)) (v : R) (refs : list addr) : R :=
  foldl (λ acc a, radd acc (sq_sum (h !!! a))) v refs.

(** The parts of the step an accumulation cannot reach. *)
Definition same_dispatch (st st' : train_step (R:=R)) : Prop :=
  self_name st' = self_name st ∧ trf_full st' = trf_full st ∧
  bp_trf_full st' = bp_trf_full st ∧ finish_update st' = finish_update st ∧
  sgd st' = sgd st ∧
  bp_trf_full_calls st' = bp_trf_full_calls st ∧
  finish_update_calls st' = finish_update_calls st.

End PipelineMore.

(** The content of the file named [nm] that comes last in [files]. *)
Definition last_file (nm : string) (files : list (string * list Byte.byte))
  : option (list Byte.byte) :=
  snd <$> last (filter (λ x, x.1 = nm) files).

(** The keys [from_bytes] reads before it looks at the configuration. *)
Definition required_keys : list string :=
  ["config"; "tokenizer"; "tokenizer_config"; "transformer_config"].

(** ** Concrete inputs

    Small inputs over exact integers, on which the definitions above are
    evaluated below. *)

Definition ex_doc (orths : list Z) : Doc (R:=Z) :=
  mkDoc (mkToken <$> orths) TransformerData_empty.

(** Two documents with three and one wordpieces, one output layer of
    width two, padded to three positions. *)
Definition ex_batch : FullTransformerBatch (R:=Z) :=
  mkFullTransformerBatch
    [["the"; "cat"; "sat"]; ["hi"]]
    [[[0%nat]; [1%nat]; [2%nat]]; [[0%nat]]] 3 2
    [ [ [[1; 1]; [1; 1]; [1; 1]]; [[1; 1]; [1; 1]; [1; 1]] ] ].

Definition ex_grad : list (tensor3 Z) :=
  [ [ [[1; 2]; [3; 4]; [5; 6]]; [[7; 8]; [9; 10]; [11; 12]] ] ].

Definition ex_examples : list (Example (R:=Z)) :=
  [mkExample (ex_doc [11; 12; 13]); mkExample (ex_doc [14])].

Definition ex_stream : list (stream_item (R:=Z)) :=
  [ItemDoc (ex_doc [1]); ItemDoc (ex_doc [2]); ItemDoc (ex_doc [3])].

(** An encoder that always answers with [ex_batch]. *)
Definition ex_model : ThincModel (R:=Z) :=
  mkThincModel (λ _, Ok ex_batch) (λ docs, Ok (ex_batch, λ _, Ok docs)) (Ok ()).

Definition ex_transformer (ls : list lref) : Transformer (R:=Z) :=
  mkTransformer "transformer" ex_model null_annotation_setter 2 ls.

Definition ex_store : gmap lref (TransformerListener (R:=Z)) :=
  <[0%nat := TransformerListener_init "transformer" 2]>
  (<[1%nat := TransformerListener_init "transformer" 2]> ∅).

(** A listener that has received the outputs of [[ex_doc [1; 2]]]. *)
Definition ex_listener : TransformerListener (R:=Z) :=
  receive 3 (doc_data ex_batch) (Some CbBackprop)
          (TransformerListener_init "transformer" 2).

(** The gradient arrays of two listeners, for the two documents of
    [ex_batch]: addresses 10 and 11 for the first listener, 20 and 21 for
    the second. *)
Definition ex_arrays : gmap addr (tensor2 Z) :=
  <[10%nat := [[1; 1]; [1; 1]; [1; 1]]]>
  (<[11%nat := [[2; 2]]]>
  (<[20%nat := [[10; 10]; [10; 10]; [10; 10]]]>
  (<[21%nat := [[20; 20]]]> ∅))).

Definition ex_c1 : list (TransformerData addr) :=
  [mkTransformerData [] [] [10%nat]; mkTransformerData [] [] [11%nat]].

Definition ex_c2 : list (TransformerData addr) :=
  [mkTransformerData [] [] [20%nat]; mkTransformerData [] [] [21%nat]].

(** The local state of a call of [update] before any acceptor has run. *)
Definition ex_step : train_step (R:=Z) :=
  mkTrainStep "transformer" ex_batch (λ _, Ok []) (Ok ()) false
              (<["transformer" := 0]> ∅) [] ex_arrays [] 0.

(** A codec for [srsly.msgpack] that keeps the value as its own encoding,
    and a [transformers] library whose every call fails. *)
Definition ex_msgpack : Msgpack := {|
  blob := value;
  msgpack_dumps := λ v, v;
  msgpack_loads := λ b, Ok b;
  msgpack_loads_dumps := λ v, eq_refl;
|}.

Definition ex_huggingface : HuggingFace := {|
  auto_config := unit;
  auto_from_pretrained := λ _ _ _, Raise (ExternalError "transformers");
  auto_model_from_config := λ _, Raise (ExternalError "transformers");
  load_state_dict := λ _ _, Raise (ExternalError "torch");
|}.

Definition ex_encoder : HFTransformer :=
  mkHFTransformer (<["model_type" := VStr "bert"]> ∅) [Byte.x01; Byte.x02].

Definition ex_shim_live : HFShim :=
  HFShim_init (mkHFObjects (Some ex_encoder)
                           (Some (mkHFTokenizer [("vocab.txt", [Byte.x61])]))
                           ∅ ∅).

Definition ex_shim_no_model : HFShim :=
  HFShim_init (mkHFObjects None None ∅ ∅).

(** The step after the first listener's contribution [ex_c1] has become the
    accumulator. *)
Definition ex_step1 : train_step (R:=Z) := set_d_tensors ex_step (tensors <$> ex_c1).



(* ===================================================================== *)
(** * Part II: properties                                                 *)
(* ===================================================================== *)

(** ** Tensor Batch Model: split and merge *)

Section TensorBatchFacts.
Context {R : Type} `{!NumOps R}.

Lemma scatter_take (len w n : nat) (rows : tensor2 R) :
  length rows = len →
  scatter len w n (take n rows)
  = imap (λ p v, if decide (p < n)%nat then v else zero_row w) rows.
Proof.
  intros Hlen. apply list_eq; intros p. unfold scatter.
  rewrite list_lookup_fmap, list_lookup_imap.
  destruct (rows !! p) as [v|] eqn:Hp.
  - assert (p < len)%nat as Hlt by (rewrite <- Hlen; eapply lookup_lt_Some; eauto).
    rewrite lookup_seq_lt by done. simpl.
    destruct (decide (p < n)%nat); [|done].
    by rewrite lookup_take_lt, Hp by done.
  - apply lookup_ge_None in Hp.
    rewrite lookup_seq_ge by lia. done.
Qed.

Lemma doc_data_tensors_lookup (b : FullTransformerBatch) (i j : nat) wps (t : tensor3 R) :
  batch_tokens b !! i = Some wps →
  model_tensors b !! j = Some t →
  (tensors <$> doc_data b) !! i ≫= (.!! j) = Some (take (length wps) (t !!! i)).
Proof.
  intros Hi Hj. unfold doc_data.
  destruct (batch_tokens b) as [|w0 ws] eqn:Hb; [done|].
  rewrite list_lookup_fmap, list_lookup_imap, Hi. simpl.
  by rewrite list_lookup_fmap, Hj.
Qed.

Lemma forallb_imap_true {A} (f : nat → A → bool) (l : list A) :
  (∀ i x, l !! i = Some x → f i x = true) →
  forallb (λ x, x) (imap f l) = true.
Proof.
  revert f. induction l as [|x l IH]; intros f Hf; [done|].
  cbn [imap forallb]. rewrite (Hf 0%nat x eq_refl). cbn [andb].
  apply IH. intros i y Hy. apply (Hf (S i) y Hy).
Qed.

Lemma entry_fits_intro (b : FullTransformerBatch) (i : nat)
    (wps : list string) (entry : list (tensor2 R)) :
  batch_tokens b !! i = Some wps →
  length entry = length (model_tensors b) →
  (∀ a, a ∈ entry → length a = length wps) →
  entry_fits b i entry = true.
Proof.
  intros Hi Hlen Hrows. unfold entry_fits. rewrite Hi.
  destruct entry as [|a0 entry']; [done|].
  apply andb_true_intro. split; [by apply bool_decide_eq_true|].
  apply forallb_forall. intros a Ha. apply bool_decide_eq_true.
  by apply Hrows, list_elem_of_In.
Qed.

(** What split produces from a gradient of the batch's shape is accepted by
    merge. *)
Lemma merge_fits_split (b : FullTransformerBatch) (g : list (tensor3 R)) :
  batch_shaped b g →
  length g = length (model_tensors b) →
  merge_fits b (tensors <$> doc_data (with_tensors b g)) = true.
Proof.
  intros [Hg Hb] Hlen. unfold merge_fits. apply andb_true_intro. split.
  - apply bool_decide_eq_true. rewrite length_fmap. unfold doc_data. simpl.
    destruct (batch_tokens b); [done|]. by rewrite !length_imap.
  - apply forallb_imap_true. intros i entry Hentry.
    rewrite list_lookup_fmap in Hentry. unfold doc_data in Hentry.
    simpl in Hentry.
    destruct (batch_tokens b) as [|w0 ws] eqn:Htok.
    { destruct i; simplify_eq/=; done. }
    rewrite <- Htok in *. rewrite list_lookup_imap in Hentry.
    destruct (batch_tokens b !! i) as [wps|] eqn:Hi; [|done].
    simpl in Hentry. injection Hentry as <-.
    apply (entry_fits_intro b i wps); [done|by rewrite length_fmap|].
    intros a Ha.
    apply list_elem_of_fmap in Ha as (t1 & -> & Ht1).
    rewrite length_take.
    pose proof (proj1 (Forall_forall _ _) Hg t1 Ht1) as [Ht Hrows].
    destruct (lookup_lt_is_Some_2 t1 i) as [rows Hr].
    { rewrite Ht. eapply lookup_lt_Some; eauto. }
    rewrite (list_lookup_total_correct _ _ _ Hr).
    pose proof (proj1 (Forall_lookup _ _) Hrows i rows Hr) as Hrl.
    pose proof (proj1 (Forall_lookup _ _) Hb i wps Hi). simpl in *. lia.
Qed.

(** C2.  Round trip of split and merge.  For every batch [b] and every
    gradient [g] of the batch's shape, splitting [g] per document (the
    forward of the split layer on the batch carrying [g]) and merging the
    slices back (the layer's backward) gives [g] again, except that the
    padding positions, which split drops, are zero after merge. *)
Theorem split_merge_roundtrip (b : FullTransformerBatch) (g : list (tensor3 R)) :
  batch_shaped b g →
  length g = length (model_tensors b) →
  (split_trf_forward b).2 (split_trf_forward (with_tensors b g)).1
  = Ok (mask_padding b g).
Proof.
  intros Hshape Hlen. pose proof Hshape as [Hg Hb]. simpl.
  unfold unsplit_by_doc. rewrite (merge_fits_split b g Hshape Hlen).
  f_equal. unfold mask_padding.
  apply list_eq; intros j.
  rewrite list_lookup_imap, list_lookup_fmap.
  destruct (g !! j) as [t|] eqn:Hj; simpl.
  2:{ apply lookup_ge_None in Hj. rewrite lookup_ge_None_2 by lia. done. }
  destruct (lookup_lt_is_Some_2 (model_tensors b) j) as [t0 Ht0].
  { rewrite <- Hlen. eapply lookup_lt_Some; eauto. }
  rewrite Ht0. simpl. f_equal.
  pose proof (proj1 (Forall_lookup _ _) Hg j t Hj) as [Ht Hrows].
  apply list_eq; intros i. rewrite !list_lookup_imap.
  destruct (batch_tokens b !! i) as [wps|] eqn:Hi; simpl.
  2:{ apply lookup_ge_None in Hi. rewrite lookup_ge_None_2 by lia. done. }
  destruct (lookup_lt_is_Some_2 t i) as [rows Hr].
  { rewrite Ht. eapply lookup_lt_Some; eauto. }
  rewrite Hr. simpl. f_equal.
  rewrite (doc_data_tensors_lookup (with_tensors b g) i j wps t) by done.
  simpl. rewrite (list_lookup_total_correct _ _ _ Hr).
  rewrite (list_lookup_total_correct _ _ _ Hi).
  apply scatter_take.
  by apply (proj1 (Forall_lookup _ _) Hrows i rows).
Qed.

End TensorBatchFacts.

(** ** The listener: batch identity and [forward] *)

Section ListenerFacts.
Context {R : Type} `{!NumOps R}.

Lemma foldl_add_acc (a : Z) (l : list Z) : foldl Z.add a l = a + py_sum l.
Proof.
  unfold py_sum. revert a. induction l as [|x l IH]; intros a; simpl.
  - lia.
  - rewrite (IH (a + x)), (IH (0 + x)). lia.
Qed.

Lemma py_sum_cons (x : Z) (l : list Z) : py_sum (x :: l) = x + py_sum l.
Proof. unfold py_sum at 1. simpl. rewrite foldl_add_acc. lia. Qed.

Lemma py_sum_app (l1 l2 : list Z) : py_sum (l1 ++ l2) = py_sum l1 + py_sum l2.
Proof.
  induction l1 as [|x l1 IH]; simpl; [done|].
  rewrite !py_sum_cons, IH. lia.
Qed.

Lemma py_sum_Permutation (l1 l2 : list Z) :
  Permutation l1 l2 → py_sum l1 = py_sum l2.
Proof.
  induction 1; rewrite ?py_sum_cons in *; lia.
Qed.

(** The token identities of a batch, in reading order. *)
Lemma get_batch_id_orths (inputs : list (Doc (R:=R))) :
  get_batch_id inputs = py_sum (batch_orths inputs).
Proof.
  unfold get_batch_id, batch_orths.
  induction inputs as [|d ds IH]; [done|].
  rewrite !fmap_cons, py_sum_cons, IH.
  change (concat (?x :: ?l)) with (x ++ concat l).
  by rewrite py_sum_app.
Qed.

Lemma py_sum_foldr (l : list Z) : py_sum l = foldr Z.add 0 l.
Proof. induction l as [|x l IH]; [done|]. by rewrite py_sum_cons, IH. Qed.

Lemma verify_inputs_None (model : TransformerListener (R:=R)) docs :
  _batch_id model = None →
  ∃ msg, verify_inputs model docs = Raise (ValueError msg).
Proof.
  intros Hid. unfold verify_inputs. rewrite Hid.
  destruct (_outputs model); [|by eauto].
  rewrite bool_decide_eq_true_2 by done. eauto.
Qed.

Lemma verify_inputs_Some (model : TransformerListener (R:=R)) docs b :
  _batch_id model = Some b →
  verify_inputs model docs =
    if bool_decide (b = get_batch_id docs) then Ok true
    else Raise (ValueError (MismatchedIDs (get_batch_id docs) (Some b))).
Proof.
  intros Hid. unfold verify_inputs. rewrite Hid.
  repeat case_bool_decide; congruence.
Qed.

(** C4 (as amended).  The fingerprint is the sum of all token identities of
    the batch, and nothing more.  Hence it is insensitive to order: two
    batches whose token identities are the same up to a permutation
    (documents permuted, tokens reordered, or tokens moved between
    documents) have equal fingerprints.  Two batches have equal fingerprints
    exactly when their token identities have equal sums, and a listener that
    received the fingerprint of one batch accepts another batch in training
    mode exactly then: only a difference of the sums is detected. *)
Theorem get_batch_id_order_insensitive (inputs1 inputs2 : list (Doc (R:=R))) :
  get_batch_id inputs1 = foldr Z.add 0 (batch_orths inputs1) ∧
  (Permutation (batch_orths inputs1) (batch_orths inputs2) →
   get_batch_id inputs1 = get_batch_id inputs2) ∧
  (get_batch_id inputs1 = get_batch_id inputs2
   ↔ foldr Z.add 0 (batch_orths inputs1) = foldr Z.add 0 (batch_orths inputs2)) ∧
  (∀ x : TransformerListener (R:=R),
     _batch_id x = Some (get_batch_id inputs1) →
     (verify_inputs x inputs2 = Ok true
      ↔ foldr Z.add 0 (batch_orths inputs1)
        = foldr Z.add 0 (batch_orths inputs2))).
Proof.
  rewrite <- !py_sum_foldr, <- !get_batch_id_orths.
  split; [done|]. split; [|split; [done|]].
  - intros HP. rewrite !get_batch_id_orths. by apply py_sum_Permutation.
  - intros x Hx. rewrite (verify_inputs_Some x inputs2 _ Hx).
    case_bool_decide; [done|]. split; [done|]. intros E. by destruct H.
Qed.

(** C3.  [forward] in training mode raises [ValueError] (the design's
    InconsistentBatchError) when the listener has no fingerprint, and when
    the fingerprint of the given documents differs from the stored one;
    otherwise it returns the stored outputs and the stored gradient
    acceptor as they are. *)
Theorem forward_training (model : TransformerListener (R:=R)) (docs : list Doc) :
  (_batch_id model = None →
     ∃ msg, forward model docs true = Raise (ValueError msg)) ∧
  (∀ b, _batch_id model = Some b → b ≠ get_batch_id docs →
     forward model docs true
     = Raise (ValueError (MismatchedIDs (get_batch_id docs) (Some b)))) ∧
  (_batch_id model = Some (get_batch_id docs) →
     forward model docs true = Ok (_outputs model, _backprop model)).
Proof.
  unfold forward. split; [|split].
  - intros Hid. destruct (verify_inputs_None model docs Hid) as [msg ->]. eauto.
  - intros b Hid Hne. rewrite (verify_inputs_Some model docs b Hid).
    by rewrite bool_decide_eq_false_2.
  - intros Hid. rewrite (verify_inputs_Some model docs _ Hid).
    by rewrite bool_decide_eq_true_2.
Qed.

(** C7 (as amended).  [forward] outside training on an empty document
    sequence returns exactly one empty PerDocumentOutput, together with a
    backward function that ignores the gradient it is given and returns the
    (empty) document sequence. *)
Theorem forward_predict_empty (model : TransformerListener (R:=R)) :
  ∃ cb, forward model [] false = Ok (Some [TransformerData_empty], Some cb) ∧
        ∀ d_data st, call cb d_data st = Ok (PyDocs [], st).
Proof. exists (CbLambdaDocs []). split; [done|]. by intros d_data st. Qed.

End ListenerFacts.

(** ** The component: [pipe] and the empty listener list *)

Section TransformerFacts.
Context {R : Type} `{!NumOps R}.

Lemma minibatch_slices_spec {A} (fuel n : nat) (items : list A) :
  (0 < n)%nat → (length items ≤ fuel)%nat →
  concat (minibatch_slices fuel n items) = items ∧
  Forall (λ b, (1 ≤ length b ≤ n)%nat) (minibatch_slices fuel n items) ∧
  (∀ i b, minibatch_slices fuel n items !! i = Some b →
          (S i < length (minibatch_slices fuel n items))%nat → length b = n) ∧
  ((n ≤ length items)%nat →
   ∃ b, minibatch_slices fuel n items !! 0%nat = Some b ∧ length b = n).
Proof.
  intros Hn. revert items.
  induction fuel as [|fuel IH]; intros items Hfuel.
  - destruct items; [|simpl in Hfuel; lia]. simpl.
    repeat split; [constructor | by intros [] | lia].
  - destruct items as [|x items].
    { simpl. rewrite take_nil. repeat split; [constructor | by intros [] | ].
      simpl. lia. }
    destruct n as [|n]; [lia|].
    assert (length (drop (S n) (x :: items)) ≤ fuel)%nat as Hdrop.
    { rewrite length_drop. simpl in *. lia. }
    destruct (IH _ Hdrop) as (Hcat & Hall & Hfull & _).
    change (minibatch_slices (S fuel) (S n) (x :: items))
      with (take (S n) (x :: items)
              :: minibatch_slices fuel (S n) (drop (S n) (x :: items))).
    repeat split.
    + change (concat (?b :: ?l)) with (b ++ concat l).
      rewrite Hcat. apply take_drop.
    + constructor; [|done]. cbn beta. rewrite length_take. simpl. lia.
    + intros [|i] b Hb Hlt.
      * simpl in Hb. injection Hb as <-. simpl. rewrite length_take.
        destruct (minibatch_slices fuel (S n) (drop (S n) (x :: items)))
          as [|b1 bs] eqn:Hrest; [simpl in Hlt; lia|].
        destruct (decide (S n ≤ length (x :: items))%nat) as [|Hshort];
          [simpl in *; lia|].
        exfalso.
        rewrite drop_ge in Hrest by lia.
        destruct fuel; simpl in Hrest; done.
      * apply (Hfull i b Hb). cbn [length] in Hlt. lia.
    + intros Hlen. eexists. split; [done|]. rewrite length_take. lia.
Qed.

Lemma batch_docs_ok (as_example : bool) (batch : list (stream_item (R:=R))) :
  (as_example = false → Forall (λ x, is_doc x = true) batch) →
  batch_docs as_example batch = Ok (eg2doc <$> batch).
Proof.
  intros Hdocs. induction batch as [|x batch IH]; [done|].
  simpl. rewrite IH.
  - destruct as_example; [done|].
    specialize (Hdocs eq_refl). inversion_clear Hdocs as [|? ? Hx _].
    by destruct x.
  - intros E. specialize (Hdocs E). by inversion Hdocs.
Qed.

Lemma pipe_loop_ok (self : Transformer (R:=R)) as_example
    (batches : list (list stream_item)) tr :
  (∀ docs, is_ok (model_predict (model self) docs) = true) →
  Forall (λ b : list stream_item,
            batch_docs as_example b = Ok (eg2doc <$> b)) batches →
  ∃ tr', pipe_loop self as_example batches tr = Ok tr' ∧
         predict_calls tr'
         = predict_calls tr ++ ((λ b : list stream_item, eg2doc <$> b) <$> batches).
Proof.
  intros Hpred. revert tr.
  induction batches as [|b batches IH]; intros tr Hall.
  - exists tr. by rewrite app_nil_r.
  - inversion_clear Hall as [|? ? Hb Hrest]. simpl. rewrite Hb. simpl.
    unfold predict. specialize (Hpred (eg2doc <$> b)).
    destruct (model_predict (model self) (eg2doc <$> b)) as [act|]; [|done].
    simpl.
    match goal with |- ∃ _, pipe_loop _ _ _ ?t = _ ∧ _ =>
      destruct (IH t Hrest) as (tr' & -> & Hcalls) end.
    exists tr'. split; [done|]. rewrite Hcalls. simpl. by rewrite <- app_assoc.
Qed.

(** C10 (as amended).  [pipe] slices the stream by the larger of the
    requested [batch_size] and the configured [max_batch_size], a size that
    [itertools.islice] accepts up to [sys.maxsize].  With a working encoder
    the call returns; the documents reach [predict] in stream order; every
    call but the last receives exactly that many documents, hence at least
    [max_batch_size]; the last call receives between one and that many, so
    it alone can fall below [max_batch_size].  A request below
    [max_batch_size] is served in slices of [max_batch_size], and a request
    above it makes [predict] receive more than [max_batch_size]
    documents. *)
Theorem pipe_batch_size (self : Transformer (R:=R)) (stream : list stream_item)
    (batch_size : Z) (as_example : bool) store :
  0 < cfg_max_batch_size self →
  Z.max batch_size (cfg_max_batch_size self) ≤ sys_maxsize →
  (∀ docs, is_ok (model_predict (model self) docs) = true) →
  (as_example = false → Forall (λ x, is_doc x = true) stream) →
  ∃ tr, pipe self stream batch_size as_example store = Ok tr ∧
    let n := Z.to_nat (Z.max batch_size (cfg_max_batch_size self)) in
    (Z.to_nat (cfg_max_batch_size self) ≤ n)%nat ∧
    concat (predict_calls tr) = eg2doc <$> stream ∧
    Forall (λ docs, (1 ≤ length docs ≤ n)%nat) (predict_calls tr) ∧
    (∀ i docs, predict_calls tr !! i = Some docs →
               (S i < length (predict_calls tr))%nat →
               length docs = n ∧
               (Z.to_nat (cfg_max_batch_size self) ≤ length docs)%nat) ∧
    (batch_size < cfg_max_batch_size self →
       n = Z.to_nat (cfg_max_batch_size self)) ∧
    (cfg_max_batch_size self < batch_size →
     (Z.to_nat batch_size ≤ length stream)%nat →
       ∃ docs, predict_calls tr !! 0%nat = Some docs ∧
               Z.of_nat (length docs) = batch_size).
Proof.
  intros HM Hmax Hpred Hdocs. unfold pipe, minibatch.
  rewrite bool_decide_eq_false_2 by lia. simpl.
  set (n := Z.to_nat (Z.max batch_size (cfg_max_batch_size self))).
  assert (0 < n)%nat as Hn by (unfold n; lia).
  destruct (minibatch_slices_spec (length stream) n stream Hn (le_n _))
    as (Hcat & Hall & Hfull & Hfirst).
  set (bs := minibatch_slices (length stream) n stream) in *.
  edestruct (pipe_loop_ok self as_example bs (mkPipeTrace [] [] store) Hpred)
    as (tr & Htr & Hcalls).
  { apply Forall_forall. intros b Hb. apply batch_docs_ok. intros E.
    specialize (Hdocs E). rewrite <- Hcat in Hdocs.
    apply Forall_concat in Hdocs.
    by apply (proj1 (Forall_forall _ _) Hdocs). }
  exists tr. split; [done|]. simpl in Hcalls. rewrite Hcalls.
  assert (Z.to_nat (cfg_max_batch_size self) ≤ n)%nat as HMn
    by (unfold n; lia).
  split; [exact HMn|].
  split; [|split; [|split; [|split]]].
  - transitivity (eg2doc <$> concat bs); [|by rewrite Hcat].
    clear. induction bs as [|b bs IH]; [done|].
    rewrite fmap_cons.
    change (concat (?x :: ?l)) with (x ++ concat l).
    by rewrite fmap_app, IH.
  - apply Forall_fmap. eapply Forall_impl; [exact Hall|].
    intros b. simpl. by rewrite length_fmap.
  - intros i docs Hi Hlt. rewrite list_lookup_fmap in Hi.
    destruct (bs !! i) as [b|] eqn:Hb; [|done]. injection Hi as <-.
    rewrite length_fmap in Hlt. rewrite length_fmap.
    rewrite (Hfull i b Hb Hlt). done.
  - intros. unfold n. lia.
  - intros HB Hlen. destruct Hfirst as (b & Hb & Hlb); [unfold n; lia|].
    exists (eg2doc <$> b). rewrite list_lookup_fmap, Hb. split; [done|].
    rewrite length_fmap, Hlb. unfold n. lia.
Qed.

(** C5.  [update] on a component without listeners fails: whenever the
    listener list is empty the call raises, and when the encoder's forward
    pass itself went through the exception is the [IndexError] of
    [self.listeners[-1]] (the design's NoListenersError).  Nothing is
    returned, so the training step is lost. *)
Theorem update_no_listeners (self : Transformer (R:=R)) examples sgd losses
    set_annots h store :
  listeners self = [] →
  ∃ e, update self examples sgd losses set_annots h store = Raise e ∧
       (is_ok (model_begin_update (model self) (eg_doc <$> examples)) = true →
        e = IndexError).
Proof.
  intros Hl. unfold update.
  destruct (model_begin_update (model self) (eg_doc <$> examples))
    as [[trf bp]|e]; simpl.
  - rewrite Hl. simpl. by exists IndexError.
  - by exists e.
Qed.

End TransformerFacts.

(** ** The serialization codec *)

Section ShimFacts.
Context `{!Msgpack} `{!HuggingFace}.

Lemma to_bytes_msg_dom (self : HFShim) msg :
  to_bytes_msg self = Ok msg → dom msg = bundle_keys.
Proof.
  unfold to_bytes_msg. intros Hmsg.
  destruct (transformer (_hfmodel self)); simpl in Hmsg.
  - destruct (tokenizer (_hfmodel self)); simpl in Hmsg; [|done].
    destruct (_model self); simpl in Hmsg; [|done].
    injection Hmsg as <-. unfold bundle_keys.
    rewrite !dom_insert_L, dom_empty_L. set_solver.
  - injection Hmsg as <-. unfold bundle_keys.
    rewrite !dom_insert_L, dom_empty_L. set_solver.
Qed.

(** C9.  Every bundle [to_bytes] produces decodes to a map whose keys are
    exactly config, state, tokenizer, tokenizer_config and
    transformer_config; and when the encoder reference is [None] the call
    succeeds and the config, state and tokenizer entries are all empty. *)
Theorem to_bytes_bundle (self : HFShim) :
  (∀ b, to_bytes self = Ok b →
        ∃ msg, msgpack_loads b = Ok (VDict msg) ∧ dom msg = bundle_keys) ∧
  (transformer (_hfmodel self) = None →
   ∃ b msg, to_bytes self = Ok b ∧ msgpack_loads b = Ok (VDict msg) ∧
            msg !! "config" = Some (VDict ∅) ∧
            msg !! "state" = Some (VDict ∅) ∧
            msg !! "tokenizer" = Some (VDict ∅)).
Proof.
  split.
  - intros b. unfold to_bytes.
    destruct (to_bytes_msg self) as [msg|] eqn:Hmsg; simpl; [|done].
    intros [= <-]. exists msg. split; [apply msgpack_loads_dumps|].
    by apply (to_bytes_msg_dom self).
  - intros Hnone. unfold to_bytes, to_bytes_msg. rewrite Hnone. simpl.
    eexists _, _. split; [done|]. split; [apply msgpack_loads_dumps|].
    by simplify_map_eq.
Qed.

(** C8 (as amended).  Decoding a bundle that carries the four keys
    [from_bytes] reads and whose config is empty never raises and returns
    the codec itself, unchanged: it holds no live model exactly when it held
    none before the call. *)
Theorem from_bytes_empty_config (self : HFShim) (bytes_data : blob) msg config_dict :
  msgpack_loads bytes_data = Ok msg →
  getitem msg "config" = Ok config_dict →
  truthy config_dict = false →
  is_ok (getitem msg "tokenizer") = true →
  is_ok (getitem msg "tokenizer_config") = true →
  is_ok (getitem msg "transformer_config") = true →
  from_bytes self bytes_data = Ok self.
Proof.
  intros Hmsg Hc Hfalse Ht Htc Hfc. unfold from_bytes.
  rewrite Hmsg. simpl. rewrite Hc. simpl.
  destruct (getitem msg "tokenizer"); [|done].
  destruct (getitem msg "tokenizer_config"); [|done].
  destruct (getitem msg "transformer_config"); [|done].
  simpl. by rewrite Hfalse.
Qed.

End ShimFacts.

(** ** The training step: accumulation and the single backward call *)

Section TrainStepFacts.
Context {R : Type} `{!NumOps R}.
Implicit Types (h : gmap addr (tensor2 R)) (st : train_step (R:=R)).
Implicit Types (row ts : list addr) (D : list (list addr)).

Lemma elem_of_concat {A} (x : A) (ls : list (list A)) :
  x ∈ concat ls ↔ ∃ l, x ∈ l ∧ l ∈ ls.
Proof.
  rewrite list_elem_of_In, in_concat. split.
  - intros (l & Hl & Hx). exists l. by rewrite !list_elem_of_In.
  - intros (l & Hx & Hl). exists l. by rewrite <- !list_elem_of_In.
Qed.

Lemma t2_add_shape (a b : tensor2 R) :
  length <$> a = length <$> b → length <$> t2_add a b = length <$> a.
Proof.
  unfold t2_add. revert b. induction a as [|x a IH]; intros [|y b] E; try done.
  rewrite !fmap_cons in E. injection E as Exy E.
  simpl. rewrite length_zip_with, <- Exy, Nat.min_id. f_equal. by apply IH.
Qed.

(** On arrays of one shape the in-place add is the elementwise sum. *)
Lemma row_iadd_same_length (ra rb : list R) :
  length ra = length rb → row_iadd ra rb = Ok (zip_with radd ra rb).
Proof. intros E. unfold row_iadd. by rewrite decide_True. Qed.

Lemma rows_iadd_same_shape (a b : tensor2 R) :
  length <$> a = length <$> b → rows_iadd a b = Ok (t2_add a b).
Proof.
  unfold t2_add. revert b. induction a as [|x a IH]; intros [|y b] E; try done.
  rewrite !fmap_cons in E. injection E as Exy E.
  cbn [rows_iadd]. rewrite (row_iadd_same_length x y Exy), (IH b E). done.
Qed.

Lemma t2_iadd_same_shape (a b : tensor2 R) :
  length <$> a = length <$> b → t2_iadd a b = Ok (t2_add a b).
Proof.
  intros E. unfold t2_iadd. rewrite decide_True.
  - by apply rows_iadd_same_shape.
  - apply (f_equal length) in E. by rewrite !length_fmap in E.
Qed.

Lemma read_row_ext h h' row :
  (∀ a, a ∈ row → h' !! a = h !! a) → read_row h' row = read_row h row.
Proof.
  intros Hext. unfold read_row. apply list_fmap_ext. intros i a Ha.
  rewrite !lookup_total_alt, Hext; [done|].
  by eapply list_elem_of_lookup_2.
Qed.

Lemma read_arrays_ext h h' D :
  (∀ a, a ∈ concat D → h' !! a = h !! a) → read_arrays h' D = read_arrays h D.
Proof.
  intros Hext. unfold read_arrays. apply list_fmap_ext. intros i row Hrow.
  apply read_row_ext. intros a Ha. apply Hext.
  apply elem_of_concat. exists row. split; [done|].
  by eapply list_elem_of_lookup_2.
Qed.

Lemma add_losses_ok ts st :
  is_Some (losses st !! self_name st) →
  ∃ l', add_losses ts st = Ok (set_losses st l') ∧ is_Some (l' !! self_name st).
Proof.
  revert st. induction ts as [|a ts IH]; intros st [v Hv].
  - exists (losses st). split; [by destruct st|eauto].
  - simpl. rewrite Hv. simpl.
    edestruct (IH (set_losses st (<[self_name st := radd v (sq_sum (arrays st !!! a))]> (losses st))))
      as (l' & Hl' & Hsome).
    { simpl. rewrite lookup_insert_eq. eauto. }
    exists l'. by rewrite Hl'.
Qed.

(** First arrival: the lists of the contribution become the accumulator's. *)
Lemma accumulate_loop_append i (ds : list (TransformerData addr)) st :
  (length (d_tensors st) ≤ i)%nat →
  is_Some (losses st !! self_name st) →
  ∃ l', accumulate_loop i ds st
        = Ok (set_d_tensors (set_losses st l') (d_tensors st ++ (tensors <$> ds)))
        ∧ is_Some (l' !! self_name st).
Proof.
  revert i st. induction ds as [|d ds IH]; intros i st Hi Hloss.
  - exists (losses st). split; [|done]. simpl. rewrite app_nil_r. by destruct st.
  - simpl. destruct (add_losses_ok (tensors d) st Hloss) as (l1 & -> & Hl1).
    simpl. rewrite decide_True by done. simpl.
    edestruct (IH (S i)
      (set_d_tensors (set_losses st l1) (d_tensors st ++ [tensors d])))
      as (l' & Hl' & Hsome).
    { simpl. rewrite length_app. simpl. lia. }
    { done. }
    exists l'. rewrite Hl'. split; [|done]. simpl. by rewrite <- app_assoc.
Qed.

Lemma iadd_tensors_spec pre row ts h :
  NoDup row → (∀ a, a ∈ ts → a ∉ row) →
  (λ a : tensor2 R, length <$> a) <$> read_row h row
  = (λ a : tensor2 R, length <$> a) <$> read_row h ts →
  ∃ h', iadd_tensors (pre ++ row) (length pre) ts h = Ok h' ∧
        read_row h' row = zip_with t2_add (read_row h row) (read_row h ts) ∧
        (∀ a, a ∉ row → h' !! a = h !! a).
Proof.
  revert pre ts h. induction row as [|t row IH]; intros pre ts h ND Hdis Hshape.
  - destruct ts; [|done]. exists h. by rewrite app_nil_r.
  - destruct ts as [|s ts]; [done|].
    unfold read_row in Hshape. rewrite !fmap_cons in Hshape.
    injection Hshape as Hts Hshape.
    apply NoDup_cons in ND as [Ht ND].
    simpl. rewrite list_lookup_middle by done. simpl.
    unfold iadd. rewrite (t2_iadd_same_shape _ _ Hts). simpl.
    set (h1 := <[t := t2_add (h !!! t) (h !!! s)]> h).
    assert (∀ a, a ≠ t → h1 !! a = h !! a) as Hh1.
    { intros a Ha. unfold h1. by rewrite lookup_insert_ne. }
    assert (read_row h1 row = read_row h row) as Hrow1.
    { apply read_row_ext. intros a Ha. apply Hh1. by intros ->. }
    assert (read_row h1 ts = read_row h ts) as Hts1.
    { apply read_row_ext. intros a Ha. apply Hh1. intros ->.
      apply (Hdis t); [by right|by left]. }
    destruct (IH (pre ++ [t]) ts h1) as (h' & Hrun & Hread & Hframe).
    { done. }
    { intros a Ha Hin. apply (Hdis a); [by right|by right]. }
    { by rewrite Hrow1, Hts1. }
    exists h'. rewrite <- app_assoc, length_app in Hrun. simpl in Hrun.
    rewrite Nat.add_1_r in Hrun. split; [done|]. split.
    + change (h' !!! t :: read_row h' row
              = t2_add (h !!! t) (h !!! s)
                  :: zip_with t2_add (read_row h row) (read_row h ts)).
      f_equal.
      * rewrite lookup_total_alt, (Hframe t Ht), <- lookup_total_alt.
        unfold h1. by rewrite lookup_total_insert_eq.
      * by rewrite Hread, Hrow1, Hts1.
    + intros a Ha. rewrite Hframe, Hh1; [done| |].
      * intros ->. apply Ha. by left.
      * intros Hin. apply Ha. by right.
Qed.

Lemma accumulate_loop_add Dpre D (ds : list (TransformerData addr)) st :
  d_tensors st = Dpre ++ D →
  is_Some (losses st !! self_name st) →
  NoDup (concat D) → (∀ a, a ∈ grad_refs ds → a ∉ concat D) →
  shapes (read_arrays (arrays st) D) = shapes (grad_arrays (arrays st) ds) →
  ∃ l' h', accumulate_loop (length Dpre) ds st
           = Ok (set_arrays (set_losses st l') h') ∧
     is_Some (l' !! self_name st) ∧
     read_arrays h' D
     = zip_with (zip_with t2_add) (read_arrays (arrays st) D)
                                  (grad_arrays (arrays st) ds) ∧
     (∀ a, a ∉ concat D → h' !! a = arrays st !! a).
Proof.
  revert Dpre ds st. induction D as [|row D IH]; intros Dpre ds st Hd Hloss ND Hdis Hshape.
  - assert (ds = []) as ->.
    { symmetry in Hshape. unfold shapes, grad_arrays, read_arrays in Hshape.
      by repeat apply fmap_nil_inv in Hshape. }
    exists (losses st), (arrays st). split; [by destruct st|]. by repeat split.
  - destruct ds as [|d ds]; [done|].
    unfold shapes, grad_arrays, read_arrays in Hshape.
    rewrite !fmap_cons in Hshape. injection Hshape as Hrow Hrest.
    change (NoDup (row ++ concat D)) in ND.
    apply NoDup_app in ND as (NDrow & Hrow_D & NDD).
    assert (∀ a, a ∈ tensors d → (a ∉ row) ∧ (a ∉ concat D)) as Hd_dis.
    { intros a Ha.
      assert (a ∉ concat (row :: D)) as Hn.
      { apply Hdis. unfold grad_refs. rewrite fmap_cons.
        change (a ∈ tensors d ++ concat (tensors <$> ds)).
        apply elem_of_app. by left. }
      change (a ∉ row ++ concat D) in Hn.
      rewrite elem_of_app in Hn. tauto. }
    simpl. destruct (add_losses_ok (tensors d) st Hloss) as (l1 & -> & Hl1).
    simpl. rewrite Hd. rewrite decide_False by (rewrite length_app; simpl; lia).
    rewrite list_lookup_middle by done. simpl.
    destruct (iadd_tensors_spec [] row (tensors d) (arrays st)) as (h1 & Hrun & Hread & Hframe).
    { done. } { intros a Ha. by apply Hd_dis. } { done. }
    simpl in Hrun. rewrite Hrun. simpl.
    assert (read_arrays h1 D = read_arrays (arrays st) D) as HD1.
    { apply read_arrays_ext. intros a Ha. apply Hframe. intros Hin.
      by apply (Hrow_D a). }
    assert (grad_arrays h1 ds = grad_arrays (arrays st) ds) as Hds1.
    { apply read_arrays_ext. intros a Ha. apply Hframe.
      assert (a ∉ concat (row :: D)) as Hn.
      { apply Hdis. unfold grad_refs. rewrite fmap_cons.
        change (a ∈ tensors d ++ concat (tensors <$> ds)).
        apply elem_of_app. by right. }
      change (a ∉ row ++ concat D) in Hn.
      rewrite elem_of_app in Hn. tauto. }
    destruct (IH (Dpre ++ [row]) ds (set_arrays (set_losses st l1) h1))
      as (l' & h' & Hloop & Hl' & Hread' & Hframe').
    { simpl. rewrite Hd. by rewrite <- app_assoc. }
    { done. } { done. }
    { intros a Ha.
      assert (a ∉ concat (row :: D)) as Hn.
      { apply Hdis. unfold grad_refs. rewrite fmap_cons.
        change (a ∈ tensors d ++ concat (tensors <$> ds)).
        apply elem_of_app. by right. }
      change (a ∉ row ++ concat D) in Hn.
      rewrite elem_of_app in Hn. tauto. }
    { simpl. rewrite HD1, Hds1. done. }
    rewrite length_app in Hloop. simpl in Hloop. rewrite Nat.add_1_r in Hloop.
    rewrite Hloop. exists l', h'. split; [done|]. split; [done|]. split.
    + simpl in Hread'. rewrite HD1, Hds1 in Hread'.
      change (read_row h' row :: read_arrays h' D
              = zip_with t2_add (read_row (arrays st) row)
                                (read_row (arrays st) (tensors d))
                  :: zip_with (zip_with t2_add) (read_arrays (arrays st) D)
                                                (grad_arrays (arrays st) ds)).
      f_equal; [|done].
      rewrite <- Hread. apply read_row_ext. intros a Ha.
      apply Hframe'. by apply Hrow_D.
    + intros a Ha. change (a ∉ row ++ concat D) in Ha.
      rewrite elem_of_app in Ha. simpl in Hframe'.
      rewrite Hframe', Hframe; tauto.
Qed.

Lemma shapes_zip_add (X Y : list (list (tensor2 R))) :
  shapes X = shapes Y → shapes (zip_with (zip_with t2_add) X Y) = shapes X.
Proof.
  unfold shapes. revert Y. induction X as [|x X IH]; intros [|y Y] E; try done.
  rewrite !fmap_cons in E. injection E as Exy E.
  simpl. f_equal; [|by apply IH].
  clear -Exy. revert y Exy. induction x as [|a x IH]; intros [|b y] E; try done.
  rewrite !fmap_cons in E. injection E as Eab E.
  simpl. f_equal; [by apply t2_add_shape|by apply IH].
Qed.


Lemma accumulate_all_spec D (rest : list (list (TransformerData addr))) st :
  d_tensors st = D →
  is_Some (losses st !! self_name st) →
  NoDup (concat D) →
  Forall (λ c, (∀ a, a ∈ grad_refs c → a ∉ concat D) ∧
               shapes (grad_arrays (arrays st) c)
               = shapes (read_arrays (arrays st) D)) rest →
  ∃ l' h', accumulate_all rest st = Ok (set_arrays (set_losses st l') h') ∧
     is_Some (l' !! self_name st) ∧
     read_arrays h' D
     = foldl (zip_with (zip_with t2_add)) (read_arrays (arrays st) D)
             (grad_arrays (arrays st) <$> rest) ∧
     (∀ a, a ∉ concat D → h' !! a = arrays st !! a).
Proof.
  revert st. induction rest as [|c rest IH]; intros st Hd Hloss ND Hall.
  - exists (losses st), (arrays st). split; [by destruct st|]. by repeat split.
  - apply Forall_cons in Hall as [[Hdis Hshape] Hall].
    destruct (accumulate_loop_add [] D c st)
      as (l1 & h1 & Hrun & Hl1 & Hread & Hframe); try done.
    simpl. unfold accumulate_gradient. simpl in Hrun. rewrite Hrun. simpl.
    assert (∀ c', (∀ a, a ∈ grad_refs c' → a ∉ concat D) →
                  grad_arrays h1 c' = grad_arrays (arrays st) c') as Hext.
    { intros c' Hc'. apply read_arrays_ext. intros a Ha.
      apply Hframe. by apply Hc'. }
    destruct (IH (set_arrays (set_losses st l1) h1))
      as (l' & h' & Hrun' & Hl' & Hread' & Hframe'); try done.
    { simpl. eapply Forall_impl; [exact Hall|]. simpl.
      intros c' [Hc' Hs']. split; [done|].
      rewrite (Hext c' Hc'), Hread, Hs'. symmetry. by apply shapes_zip_add. }
    exists l', h'. split; [done|]. split; [done|]. split.
    + simpl in Hread'. rewrite Hread', Hread. simpl. f_equal.
      apply Forall_fmap_ext. eapply Forall_impl; [exact Hall|].
      simpl. intros c' [Hc' _]. by apply Hext.
    + intros a Ha. simpl in Hframe'. by rewrite Hframe', Hframe.
Qed.

Lemma call_all_in_order (cs : list (list (TransformerData addr))) st :
  cs ≠ [] →
  call_all (zip (acceptors_in_order (length cs)) cs) st
  = st' ← accumulate_all cs st; r ← dispatch st'; Ok r.2.
Proof.
  unfold acceptors_in_order. revert st.
  induction cs as [|c cs IH]; intros st Hne; [done|].
  destruct cs as [|c' cs].
  - simpl. unfold backprop, dispatch.
    destruct (accumulate_gradient c st) as [st1|]; simpl; [|done].
    destruct (unsplit_by_doc _ _) as [g|]; simpl; [|done].
    destruct (bp_trf_full st1 g) as [d|]; simpl; [|done].
    by destruct (if sgd st1 then finish_update st1 else Ok ()) as [[]|].
  - specialize (IH) . simpl in *. rewrite Nat.sub_0_r in IH.
    destruct (accumulate_gradient c st) as [st1|]; simpl; [|done].
    by apply IH.
Qed.


Lemma fmap_replicate_const {A B} (f : A → B) (l : list A) (y : B) :
  (∀ x, x ∈ l → f x = y) → f <$> l = replicate (length l) y.
Proof.
  induction l as [|x l IH]; intros Hf; [done|].
  rewrite fmap_cons. simpl. f_equal; [apply Hf; by left|].
  apply IH. intros x' Hx'. apply Hf. by right.
Qed.

Lemma receive_idemp b o cb (l : TransformerListener (R:=R)) :
  receive b o cb (receive b o cb l) = receive b o cb l.
Proof. done. Qed.

Lemma receive_all_lookup (ls : list lref) b o cb
    (store : gmap lref (TransformerListener (R:=R))) (l : lref) :
  receive_all ls b o cb store !! l
  = if decide (l ∈ ls) then receive b o cb <$> store !! l else store !! l.
Proof.
  unfold receive_all. revert store.
  induction ls as [|x ls IH]; intros store; [done|].
  simpl. rewrite IH.
  destruct (decide (x = l)) as [->|Hne].
  - rewrite lookup_alter_eq.
    rewrite (decide_True (P := l ∈ l :: ls)) by left.
    case_decide; [|done].
    destruct (store !! l); [|done]. simpl. by rewrite receive_idemp.
  - rewrite lookup_alter_ne by done.
    destruct (decide (l ∈ ls)) as [Hin|Hnin].
    + by rewrite (decide_True (P := l ∈ x :: ls)) by (by right).
    + rewrite (decide_False (P := l ∈ x :: ls)); [done|].
      intros [->|?]%elem_of_cons; done.
Qed.

Lemma handed_acceptors_update (init : list lref) (lst : lref) b o
    (store : gmap lref (TransformerListener (R:=R))) :
  NoDup (init ++ [lst]) →
  (∀ l, l ∈ init ++ [lst] → is_Some (store !! l)) →
  handed_acceptors
    (alter (receive b o (Some CbBackprop)) lst
       (receive_all init b o (Some CbAccumulateGradient) store))
    (init ++ [lst])
  = Some <$> acceptors_in_order (length (init ++ [lst])).
Proof.
  intros ND Hin. apply NoDup_app in ND as (_ & Hdis & _).
  unfold handed_acceptors, acceptors_in_order.
  rewrite length_app. simpl. rewrite Nat.add_1_r. simpl. rewrite Nat.sub_0_r.
  rewrite !fmap_app. f_equal.
  - rewrite fmap_replicate. apply fmap_replicate_const. intros l Hl.
    assert (l ≠ lst) as Hne by (intros ->; apply (Hdis lst Hl); by left).
    destruct (Hin l) as [x Hx]; [apply elem_of_app; by left|].
    rewrite lookup_alter_ne by done.
    by rewrite receive_all_lookup, decide_True, Hx by done.
  - simpl. f_equal. rewrite lookup_alter_eq, receive_all_lookup.
    rewrite decide_False by (intros Hl; apply (Hdis lst Hl); by left).
    destruct (Hin lst) as [x ->]; [apply elem_of_app; right; by left|]. done.
Qed.


(** C1.  [update] on a component with K >= 1 distinct listeners hands
    [accumulate_gradient] to the first K-1 of them and [backprop] to the
    last one only.  When the K acceptors are then invoked once each in
    listener order (the ordering contract: [backprop] runs last), with
    contributions of one shape held in arrays of their own, the accumulator
    holds, per document and per tensor, the elementwise sum of the K
    contributions; [backprop] merges exactly that sum and calls the
    encoder's backward callable on the merged gradient, once.  The run
    raises only what the merge, the backward callable or the optimizer step
    raises. *)
Theorem update_gradient_sum (self : Transformer (R:=R)) examples sgd0 losses0
    set_annots h store store' st0 docs'
    (c1 : list (TransformerData addr)) (rest : list (list (TransformerData addr))) :
  update self examples sgd0 losses0 set_annots h store = Ok (store', st0, docs') →
  NoDup (listeners self) →
  (∀ l, l ∈ listeners self → is_Some (store !! l)) →
  length (c1 :: rest) = length (listeners self) →
  NoDup (grad_refs c1) →
  Forall (λ c, (∀ a, a ∈ grad_refs c → a ∉ grad_refs c1) ∧
               shapes (grad_arrays h c) = shapes (grad_arrays h c1)) rest →
  handed_acceptors store' (listeners self)
  = Some <$> acceptors_in_order (length (listeners self)) ∧
  model_begin_update (model self) (eg_doc <$> examples)
  = Ok (trf_full st0, bp_trf_full st0) ∧
  ∃ st_acc,
    accumulate_all (c1 :: rest) st0 = Ok st_acc ∧
    read_arrays (arrays st_acc) (d_tensors st_acc) = grad_sum h (c1 :: rest) ∧
    bp_trf_full_calls st_acc = [] ∧
    call_all (zip (acceptors_in_order (length (listeners self))) (c1 :: rest)) st0
    = (g ← unsplit_by_doc (trf_full st0) (grad_sum h (c1 :: rest));
       _ ← bp_trf_full st0 g;
       _ ← (if sgd0 then finish_update st0 else Ok ());
       Ok (after_backward st_acc g)) ∧
    (∀ st', call_all (zip (acceptors_in_order (length (listeners self)))
                          (c1 :: rest)) st0 = Ok st' →
       ∃ g, unsplit_by_doc (trf_full st0) (grad_sum h (c1 :: rest)) = Ok g ∧
            bp_trf_full_calls st' = [g]).
Proof.
  intros Hupd NDl Hstore Hlen NDc Hrest. unfold update in Hupd.
  destruct (model_begin_update (model self) (eg_doc <$> examples))
    as [[trf bp]|] eqn:Hbegin; simpl in Hupd; [|done].
  unfold last_item in Hupd.
  destruct (last (listeners self)) as [lst|] eqn:Hlast; simpl in Hupd; [|done].
  injection Hupd as <- <- <-.
  split; [|split; [done|]].
  - apply last_Some in Hlast as [init Hinit]. rewrite Hinit in *.
    replace (all_but_last (init ++ [lst])) with init.
    + by apply handed_acceptors_update.
    + unfold all_but_last. rewrite length_app. simpl.
      rewrite Nat.add_1_r. simpl. by rewrite Nat.sub_0_r, take_app_length.
  - rewrite <- Hlen. rewrite call_all_in_order by done.
    set (st0 := mkTrainStep _ _ _ _ _ _ _ _ _ _).
    assert (is_Some (losses st0 !! self_name st0)) as Hloss.
    { simpl. destruct (default ∅ losses0 !! name self) eqn:E; [by eauto|].
      rewrite lookup_insert_eq. eauto. }
    assert (∃ st_acc,
      accumulate_all (c1 :: rest) st0 = Ok st_acc ∧
      read_arrays (arrays st_acc) (d_tensors st_acc) = grad_sum h (c1 :: rest) ∧
      bp_trf_full_calls st_acc = [] ∧
      trf_full st_acc = trf ∧ bp_trf_full st_acc = bp ∧ sgd st_acc = sgd0 ∧
      finish_update st_acc = model_finish_update (model self))
      as (st_acc & Hacc & Hsum & Hcalls & Htrf & Hbp & Hsgd & Hfin).
    { simpl. unfold accumulate_gradient.
      destruct (accumulate_loop_append 0 c1 st0) as (l1 & -> & Hl1);
        [simpl; lia|done|].
      simpl.
      match goal with |- ∃ _, accumulate_all _ ?s = _ ∧ _ =>
        destruct (accumulate_all_spec (tensors <$> c1) rest s)
          as (l' & h' & -> & Hl' & Hread & _) end; try done.
      eexists. split; [done|]. simpl. by rewrite Hread. }
    exists st_acc. rewrite Hacc. cbn [mbind result_bind].
    assert ((r ← dispatch st_acc; Ok r.2)
            = (g ← unsplit_by_doc (trf_full st0) (grad_sum h (c1 :: rest));
               _ ← bp_trf_full st0 g;
               _ ← (if sgd0 then finish_update st0 else Ok ());
               Ok (after_backward st_acc g))) as Hrun.
    { unfold dispatch. rewrite Hsum, Htrf, Hbp, Hsgd, Hfin.
      change (trf_full st0) with trf. change (bp_trf_full st0) with bp.
      change (finish_update st0) with (model_finish_update (model self)).
      destruct (unsplit_by_doc trf (grad_sum h (c1 :: rest))) as [g|];
        simpl; [|done].
      destruct (bp g) as [d|]; simpl; [|done].
      by destruct (if sgd0 then model_finish_update (model self) else Ok ())
        as [[]|]. }
    split; [done|]. split; [done|]. split; [done|]. split; [exact Hrun|].
    intros st' Hst'. rewrite Hrun in Hst'.
    destruct (unsplit_by_doc (trf_full st0) (grad_sum h (c1 :: rest))) as [g|];
      cbn [mbind result_bind] in Hst'; [|done].
    exists g. split; [done|].
    destruct (bp_trf_full st0 g) as [d|]; cbn [mbind result_bind] in Hst';
      [|done].
    destruct (if sgd0 then finish_update st0 else Ok ()) as [[]|];
      cbn [mbind result_bind] in Hst'; [|done].
    injection Hst' as <-. cbn [after_backward bp_trf_full_calls].
    by rewrite Hcalls.
Qed.

Lemma add_losses_fields ts st st' :
  add_losses ts st = Ok st' →
  d_tensors st' = d_tensors st ∧ arrays st' = arrays st.
Proof.
  revert st. induction ts as [|a ts IH]; intros st Hrun.
  - by injection Hrun as <-.
  - simpl in Hrun. destruct (losses st !! self_name st); simpl in Hrun; [|done].
    by destruct (IH _ Hrun) as [-> ->].
Qed.

Lemma iadd_tensors_frame row j ts h h' :
  iadd_tensors row j ts h = Ok h' → ∀ a, a ∉ row → h' !! a = h !! a.
Proof.
  revert j h. induction ts as [|s ts IH]; intros j h Hrun a Ha.
  - by injection Hrun as <-.
  - simpl in Hrun.
    destruct (row !! j) as [t|] eqn:Ht; simpl in Hrun; [|done].
    unfold iadd in Hrun.
    destruct (t2_iadd (h !!! t) (h !!! s)); simpl in Hrun; [|done].
    rewrite (IH _ _ Hrun a Ha). apply lookup_insert_ne.
    intros ->. apply Ha. by eapply list_elem_of_lookup_2.
Qed.

Lemma accumulate_loop_append_inv i (ds : list (TransformerData addr)) st st' :
  (length (d_tensors st) ≤ i)%nat →
  accumulate_loop i ds st = Ok st' →
  d_tensors st' = d_tensors st ++ (tensors <$> ds) ∧ arrays st' = arrays st.
Proof.
  revert i st. induction ds as [|d ds IH]; intros i st Hi Hrun.
  - injection Hrun as <-. by rewrite app_nil_r.
  - simpl in Hrun.
    destruct (add_losses (tensors d) st) as [st1|] eqn:Hl; simpl in Hrun; [|done].
    destruct (add_losses_fields _ _ _ Hl) as [Hd Ha].
    rewrite decide_True in Hrun by (rewrite Hd; lia). simpl in Hrun.
    apply IH in Hrun as [-> ->]; [|simpl; rewrite length_app, Hd; simpl; lia].
    simpl. by rewrite Hd, Ha, <- app_assoc.
Qed.

(** What one [d_tensors[i][j] += d_tensor] loop leaves in the store: the
    array at every target holds the in-place sum, every other array is as it
    was. *)
Lemma iadd_tensors_inv row j0 ts h h' :
  NoDup row → (∀ a, a ∈ ts → a ∉ row) →
  iadd_tensors row j0 ts h = Ok h' →
  (∀ k t s, ts !! k = Some s → row !! ((j0 + k)%nat) = Some t →
     t2_iadd (h !!! t) (h !!! s) = Ok (h' !!! t)) ∧
  (∀ a, (∀ k, (k < length ts)%nat → row !! ((j0 + k)%nat) ≠ Some a) →
        h' !! a = h !! a).
Proof.
  intros ND. revert j0 h. induction ts as [|s ts IH]; intros j0 h Hdis Hrun.
  - injection Hrun as <-. split; [|done].
    intros k t s Hk. by rewrite lookup_nil in Hk.
  - simpl in Hrun.
    destruct (row !! j0) as [t0|] eqn:Ht0; simpl in Hrun; [|done].
    unfold iadd in Hrun.
    destruct (t2_iadd (h !!! t0) (h !!! s)) as [v|] eqn:Hv; simpl in Hrun;
      [|done].
    apply IH in Hrun as [Hadd Hframe]; [|intros a Ha; apply Hdis; by right].
    assert (t0 ∈ row) as Hin0 by (by eapply list_elem_of_lookup_2).
    split.
    + intros k t s' Hk Ht. destruct k as [|k].
      * rewrite Nat.add_0_r, Ht0 in Ht. injection Ht as <-.
        injection Hk as <-. rewrite Hv. f_equal.
        rewrite (lookup_total_alt h'), Hframe, lookup_insert_eq; [done|].
        intros k Hk Hrow.
        pose proof (NoDup_lookup _ _ _ _ ND Hrow Ht0). lia.
      * simpl in Hk. replace (j0 + S k)%nat with (S j0 + k)%nat in Ht by lia.
        specialize (Hadd k t s' Hk Ht).
        rewrite !lookup_total_insert_ne in Hadd; [done| |].
        -- intros ->. apply (Hdis s'); [|done]. right.
           by eapply list_elem_of_lookup_2.
        -- intros ->. pose proof (NoDup_lookup _ _ _ _ ND Ht Ht0). lia.
    + intros a Ha. rewrite Hframe.
      * apply lookup_insert_ne. intros ->. apply (Ha 0%nat); [simpl; lia|].
        by rewrite Nat.add_0_r.
      * intros k Hk. replace (S j0 + k)%nat with (j0 + S k)%nat by lia.
        apply Ha. simpl. lia.
Qed.

(** The loop of [accumulate_gradient] over the rows [D] the accumulator
    holds from index [length Dpre] on. *)
Lemma accumulate_loop_inv Dpre D (ds : list (TransformerData addr)) st st' :
  d_tensors st = Dpre ++ D →
  NoDup (concat D) → (∀ a, a ∈ grad_refs ds → a ∉ concat D) →
  accumulate_loop (length Dpre) ds st = Ok st' →
  (∀ k row d j t s, D !! k = Some row → ds !! k = Some d →
     row !! j = Some t → tensors d !! j = Some s →
     t2_iadd (arrays st !!! t) (arrays st !!! s) = Ok (arrays st' !!! t)) ∧
  (∀ a, a ∉ concat D → arrays st' !! a = arrays st !! a).
Proof.
  revert Dpre ds st.
  induction D as [|row D IH]; intros Dpre ds st Hd ND Hdis Hrun.
  - rewrite app_nil_r in Hd.
    apply accumulate_loop_append_inv in Hrun as [_ ->]; [|rewrite Hd; lia].
    split; [|done]. intros k row d j t s Hk. by rewrite lookup_nil in Hk.
  - destruct ds as [|d ds].
    { injection Hrun as <-. split; [|done].
      intros k r d j t s _ Hk. by rewrite lookup_nil in Hk. }
    change (NoDup (row ++ concat D)) in ND.
    apply NoDup_app in ND as (NDrow & Hrow_D & NDD).
    assert (∀ a, a ∈ tensors d → (a ∉ row) ∧ (a ∉ concat D)) as Hd_dis.
    { intros a Ha.
      assert (a ∉ concat (row :: D)) as Hn.
      { apply Hdis. unfold grad_refs. rewrite fmap_cons.
        change (a ∈ tensors d ++ concat (tensors <$> ds)).
        apply elem_of_app. by left. }
      change (a ∉ row ++ concat D) in Hn.
      rewrite elem_of_app in Hn. tauto. }
    assert (∀ a, a ∈ grad_refs ds → (a ∉ row) ∧ (a ∉ concat D)) as Hds_dis.
    { intros a Ha.
      assert (a ∉ concat (row :: D)) as Hn.
      { apply Hdis. unfold grad_refs. rewrite fmap_cons.
        change (a ∈ tensors d ++ concat (tensors <$> ds)).
        apply elem_of_app. by right. }
      change (a ∉ row ++ concat D) in Hn.
      rewrite elem_of_app in Hn. tauto. }
    simpl in Hrun.
    destruct (add_losses (tensors d) st) as [st1|] eqn:Hl; simpl in Hrun; [|done].
    destruct (add_losses_fields _ _ _ Hl) as [Hd1 Ha1].
    rewrite Hd1, Hd in Hrun.
    rewrite decide_False in Hrun by (rewrite length_app; simpl; lia).
    rewrite list_lookup_middle in Hrun by done. simpl in Hrun.
    destruct (iadd_tensors row 0 (tensors d) (arrays st1)) as [h1|] eqn:Hadd;
      simpl in Hrun; [|done].
    rewrite Ha1 in Hadd.
    destruct (iadd_tensors_inv row 0 (tensors d) (arrays st) h1 NDrow
                (λ a Ha, proj1 (Hd_dis a Ha)) Hadd) as [Hval _].
    pose proof (iadd_tensors_frame _ _ _ _ _ Hadd) as Hfr_row.
    replace (S (length Dpre)) with (length (Dpre ++ [row])) in Hrun
      by (rewrite length_app; simpl; lia).
    apply IH in Hrun as [Hval' Hfr'];
      [|simpl; by rewrite Hd1, Hd, <- app_assoc|done
       |intros a Ha; by apply Hds_dis].
    simpl in Hval', Hfr'.
    assert (∀ a, a ∉ row → h1 !!! a = arrays st !!! a) as Hfr_tot.
    { intros a Ha. by rewrite !lookup_total_alt, Hfr_row. }
    split.
    + intros k r d' j t s Hk Hdk Ht Hs. destruct k as [|k]; simpl in Hk, Hdk.
      * injection Hk as <-. injection Hdk as <-.
        replace (arrays st' !!! t) with (h1 !!! t).
        { by apply (Hval j t s). }
        rewrite !lookup_total_alt, Hfr'; [done|]. apply Hrow_D.
        by eapply list_elem_of_lookup_2.
      * specialize (Hval' k r d' j t s Hk Hdk Ht Hs).
        assert (t ∉ row) as Htrow.
        { intros Hin. apply (Hrow_D t Hin). apply elem_of_concat.
          exists r. split; by eapply list_elem_of_lookup_2. }
        assert (s ∉ row) as Hsrow.
        { apply Hds_dis. unfold grad_refs. apply elem_of_concat.
          exists (tensors d'). split.
          - by eapply list_elem_of_lookup_2.
          - apply list_elem_of_fmap. exists d'. split; [done|].
            by eapply list_elem_of_lookup_2. }
        by rewrite (Hfr_tot t Htrow), (Hfr_tot s Hsrow) in Hval'.
    + intros a Ha. change (a ∉ row ++ concat D) in Ha.
      rewrite elem_of_app in Ha. rewrite Hfr', Hfr_row; tauto.
Qed.

(** The references the accumulator holds after a call, and the arrays the
    call leaves alone. *)
Lemma accumulate_gradient_refs (ds : list (TransformerData addr)) st st' :
  accumulate_gradient ds st = Ok st' →
  d_tensors st'
  = d_tensors st ++ drop (length (d_tensors st)) (tensors <$> ds) ∧
  ∀ a, a ∉ concat (d_tensors st) → arrays st' !! a = arrays st !! a.
Proof.
  unfold accumulate_gradient.
  rewrite <- (Nat.sub_0_r (length (d_tensors st))). generalize 0%nat as i.
  intros i. revert i st. induction ds as [|d ds IH]; intros i st Hrun.
  - injection Hrun as <-. by rewrite fmap_nil, drop_nil, app_nil_r.
  - simpl in Hrun.
    destruct (add_losses (tensors d) st) as [st1|] eqn:Hl; simpl in Hrun; [|done].
    destruct (add_losses_fields _ _ _ Hl) as [Hd Ha].
    destruct (decide (length (d_tensors st1) ≤ i)%nat) as [Hi|Hi]; simpl in Hrun.
    + apply accumulate_loop_append_inv in Hrun as [-> ->];
        [|simpl; rewrite length_app; simpl; lia].
      simpl. rewrite Hd in Hi.
      replace (length (d_tensors st) - i)%nat with 0%nat by lia.
      rewrite Hd, Ha, <- app_assoc. done.
    + destruct (d_tensors st1 !! i) as [row|] eqn:Hrow; simpl in Hrun; [|done].
      destruct (iadd_tensors row 0 (tensors d) (arrays st1)) as [h1|] eqn:Hadd;
        simpl in Hrun; [|done].
      apply IH in Hrun as [-> Hframe]. simpl in *. rewrite Hd in *. split.
      * f_equal.
        replace (length (d_tensors st) - i)%nat
          with (S (length (d_tensors st) - S i)) by lia.
        done.
      * intros a Hna. rewrite (Hframe a Hna), <- Ha.
        apply (iadd_tensors_frame _ _ _ _ _ Hadd). intros Hin. apply Hna.
        apply elem_of_concat. exists row. split; [done|].
        by eapply list_elem_of_lookup_2.
Qed.

(** C6 (as amended).  [accumulate_gradient] takes the tensor lists of the
    first contribution it receives for a document by reference, as the
    accumulator, and adds every later contribution into those arrays in
    place: with the accumulator's arrays pairwise distinct and distinct from
    the contribution's, the array at position (i, j) of the accumulator
    holds, after the call, numpy's in-place sum of what it held and of array
    j of the contribution's document i.  A call writes to no array other
    than those the accumulator already holds: every other array, in
    particular the arrays of the contribution being added and any array not
    handed over as a first contribution, is left as it was. *)
Theorem accumulate_gradient_frame (ds : list (TransformerData addr)) st st' :
  accumulate_gradient ds st = Ok st' →
  d_tensors st'
  = d_tensors st ++ drop (length (d_tensors st)) (tensors <$> ds) ∧
  (∀ a, a ∉ concat (d_tensors st) → arrays st' !! a = arrays st !! a) ∧
  (NoDup (concat (d_tensors st)) →
   (∀ a, a ∈ grad_refs ds → a ∉ concat (d_tensors st)) →
   ∀ i row d j t s,
     d_tensors st !! i = Some row → ds !! i = Some d →
     row !! j = Some t → tensors d !! j = Some s →
     t2_iadd (arrays st !!! t) (arrays st !!! s) = Ok (arrays st' !!! t) ∧
     (length <$> arrays st !!! t = length <$> arrays st !!! s →
      arrays st' !!! t = t2_add (arrays st !!! t) (arrays st !!! s))).
Proof.
  intros Hrun. destruct (accumulate_gradient_refs ds st st' Hrun) as [Hd Hfr].
  split; [exact Hd|]. split; [exact Hfr|].
  intros ND Hdis i row d j t s Hrow Hdi Ht Hs.
  destruct (accumulate_loop_inv [] (d_tensors st) ds st st' eq_refl ND Hdis Hrun)
    as [Hval _].
  pose proof (Hval i row d j t s Hrow Hdi Ht Hs) as Hadd.
  split; [exact Hadd|].
  intros Hshape. rewrite (t2_iadd_same_shape _ _ Hshape) in Hadd.
  by injection Hadd as <-.
Qed.

End TrainStepFacts.

(** ** The properties on the concrete inputs *)

(** Decidable side conditions on concrete inputs. *)
Ltac by_computation := apply (bool_decide_unpack _); vm_compute; exact I.

(** C2 on [ex_batch]: the gradient [ex_grad] comes back with the two padding
    positions of the second document zeroed. *)
Lemma split_merge_roundtrip_witness :
  batch_shaped ex_batch ex_grad ∧
  (split_trf_forward ex_batch).2 (split_trf_forward (with_tensors ex_batch ex_grad)).1
  = Ok [ [ [[1; 2]; [3; 4]; [5; 6]]; [[7; 8]; [0; 0]; [0; 0]] ] ].
Proof.
  assert (batch_shaped ex_batch ex_grad) as Hshape.
  { split; repeat constructor. }
  split; [exact Hshape|].
  rewrite (split_merge_roundtrip ex_batch ex_grad Hshape eq_refl).
  reflexivity.
Defined.

(** C3 on a fresh listener, on a listener asked about another batch, and on
    a listener asked about the batch it received. *)
Lemma forward_training_witness :
  (∃ msg, forward (TransformerListener_init "transformer" 2) [ex_doc [1; 2]] true
          = Raise (ValueError msg)) ∧
  forward ex_listener [ex_doc [1; 4]] true
  = Raise (ValueError (MismatchedIDs 5 (Some 3))) ∧
  forward ex_listener [ex_doc [1; 2]] true
  = Ok (Some (doc_data ex_batch), Some CbBackprop).
Proof.
  split; [|split].
  - apply (forward_training (TransformerListener_init "transformer" 2)
                            [ex_doc [1; 2]]). reflexivity.
  - apply (forward_training ex_listener [ex_doc [1; 4]]) with (b := 3).
    + reflexivity.
    + vm_compute. discriminate.
  - apply (forward_training ex_listener [ex_doc [1; 2]]). reflexivity.
Defined.

(** C4 as stated fails: two different batches that present the token
    identities 1, 2, 3 in different orders have the same fingerprint, 6. *)
Lemma get_batch_id_order_counterexample :
  [ex_doc [1; 2]; ex_doc [3]] ≠ [ex_doc [3]; ex_doc [2; 1]] ∧
  batch_orths [ex_doc [1; 2]; ex_doc [3]] = [1; 2; 3] ∧
  batch_orths [ex_doc [3]; ex_doc [2; 1]] = [3; 2; 1] ∧
  get_batch_id [ex_doc [1; 2]; ex_doc [3]] = 6 ∧
  get_batch_id [ex_doc [3]; ex_doc [2; 1]] = 6.
Proof. split; [discriminate|]. repeat split. Qed.

(** C4 as amended, on the same two batches, and on two batches whose token
    identities differ (1, 4 against 2, 3) but have the same sum: the
    listener that received the first accepts the second. *)
Lemma get_batch_id_order_insensitive_witness :
  get_batch_id [ex_doc [1; 2]; ex_doc [3]] = 1 + (2 + (3 + 0)) ∧
  get_batch_id [ex_doc [1; 2]; ex_doc [3]]
  = get_batch_id [ex_doc [3]; ex_doc [2; 1]] ∧
  get_batch_id [ex_doc [1; 4]] = get_batch_id [ex_doc [2; 3]] ∧
  verify_inputs (receive 5 (doc_data ex_batch) (Some CbBackprop)
                   (TransformerListener_init "transformer" 2))
                [ex_doc [2; 3]] = Ok true.
Proof.
  destruct (get_batch_id_order_insensitive
              [ex_doc [1; 2]; ex_doc [3]] [ex_doc [3]; ex_doc [2; 1]])
    as (Hsum & Hperm & _ & _).
  destruct (get_batch_id_order_insensitive [ex_doc [1; 4]] [ex_doc [2; 3]])
    as (_ & _ & Heq & Haccept).
  split; [exact Hsum|]. split; [|split].
  - apply Hperm.
    change (Permutation [1; 2; 3] [3; 2; 1]).
    apply (Permutation_trans (l' := [2; 3; 1])).
    + apply (Permutation_cons_append [2; 3] 1).
    + apply (Permutation_trans (l' := [3; 1; 2])).
      * apply (Permutation_cons_append [3; 1] 2).
      * apply perm_skip. apply perm_swap.
  - apply Heq. reflexivity.
  - apply Haccept; reflexivity.
Defined.

(** C5 on a component without listeners. *)
Lemma update_no_listeners_witness :
  ∃ e, update (ex_transformer []) ex_examples false None false ex_arrays ex_store
       = Raise e ∧
       (is_ok (model_begin_update (model (ex_transformer [])) (eg_doc <$> ex_examples))
        = true → e = IndexError).
Proof.
  apply (update_no_listeners (ex_transformer []) ex_examples false None false
                             ex_arrays ex_store).
  reflexivity.
Defined.

(** C10 as stated fails on the last call: on a stream of three documents,
    with [max_batch_size] 2 and a requested batch size of 1, [predict] is
    called with two documents and then with one, fewer than
    [max_batch_size]. *)
Lemma pipe_batch_size_last_call_counterexample :
  ∃ tr, pipe (ex_transformer []) ex_stream 1 false ex_store = Ok tr ∧
    cfg_max_batch_size (ex_transformer []) = 2 ∧
    length <$> predict_calls tr = [2; 1]%nat ∧
    ∃ docs, last (predict_calls tr) = Some docs ∧
            Z.of_nat (length docs) < cfg_max_batch_size (ex_transformer []).
Proof.
  destruct (pipe (ex_transformer []) ex_stream 1 false ex_store)
    as [tr|] eqn:Hrun; [|vm_compute in Hrun; discriminate].
  exists tr. split; [reflexivity|]. split; [reflexivity|].
  vm_compute in Hrun. injection Hrun as <-.
  split; [reflexivity|]. eexists. split; [reflexivity|]. reflexivity.
Qed.

(** C10 as amended, on the same run. *)
Lemma pipe_batch_size_witness :
  ∃ tr, pipe (ex_transformer []) ex_stream 1 false ex_store = Ok tr ∧
    let n := Z.to_nat (Z.max 1 (cfg_max_batch_size (ex_transformer []))) in
    (Z.to_nat (cfg_max_batch_size (ex_transformer [])) ≤ n)%nat ∧
    concat (predict_calls tr) = eg2doc <$> ex_stream ∧
    Forall (λ docs, (1 ≤ length docs ≤ n)%nat) (predict_calls tr) ∧
    (∀ i docs, predict_calls tr !! i = Some docs →
               (S i < length (predict_calls tr))%nat →
               length docs = n ∧
               (Z.to_nat (cfg_max_batch_size (ex_transformer [])) ≤ length docs)%nat) ∧
    (1 < cfg_max_batch_size (ex_transformer []) →
       n = Z.to_nat (cfg_max_batch_size (ex_transformer []))) ∧
    (cfg_max_batch_size (ex_transformer []) < 1 →
     (Z.to_nat 1 ≤ length ex_stream)%nat →
       ∃ docs, predict_calls tr !! 0%nat = Some docs ∧
               Z.of_nat (length docs) = 1).
Proof.
  apply (pipe_batch_size (ex_transformer []) ex_stream 1 false ex_store).
  - reflexivity.
  - vm_compute. discriminate.
  - intros docs. reflexivity.
  - intros _. repeat constructor.
Defined.

(** The ordering contract of the acceptors.  Two listeners; the second one's
    [backprop] is invoked with [ex_c2] before the first one's
    [accumulate_gradient] with [ex_c1].  Each acceptor has been invoked
    exactly once, yet the encoder's backward callable was given the merge
    of [ex_c2] alone (entries 10 and 20), not of the sum (entries 11 and
    22): the finalize step merges a partially accumulated gradient. *)
Lemma finalize_first_merges_partial_sum :
  ∃ store' st0 docs' st',
    update (ex_transformer [0; 1]%nat) ex_examples false None false
           ex_arrays ex_store
    = Ok (store', st0, docs') ∧
    handed_acceptors store' [0; 1]%nat
    = [Some CbAccumulateGradient; Some CbBackprop] ∧
    call_all [(CbBackprop, ex_c2); (CbAccumulateGradient, ex_c1)] st0 = Ok st' ∧
    bp_trf_full_calls st'
    = [ [ [ [[10; 10]; [10; 10]; [10; 10]]; [[20; 20]; [0; 0]; [0; 0]] ] ] ] ∧
    unsplit_by_doc (trf_full st0) (grad_sum ex_arrays [ex_c1; ex_c2])
    = Ok [ [ [[11; 11]; [11; 11]; [11; 11]]; [[22; 22]; [0; 0]; [0; 0]] ] ].
Proof.
  eexists _, _, _, _.
  split; [vm_compute; reflexivity|]. split; [vm_compute; reflexivity|].
  split; [vm_compute; reflexivity|]. split; vm_compute; reflexivity.
Qed.

(** C1 on the same two listeners invoked in listener order: the backward
    callable is called once, on the merge of the sum. *)
Lemma update_gradient_sum_witness :
  ∃ store' st0 docs',
    update (ex_transformer [0; 1]%nat) ex_examples false None false
           ex_arrays ex_store
    = Ok (store', st0, docs') ∧
    handed_acceptors store' [0; 1]%nat
    = [Some CbAccumulateGradient; Some CbBackprop] ∧
    ∃ st',
      call_all [(CbAccumulateGradient, ex_c1); (CbBackprop, ex_c2)] st0 = Ok st' ∧
      bp_trf_full_calls st'
      = [ [ [ [[11; 11]; [11; 11]; [11; 11]]; [[22; 22]; [0; 0]; [0; 0]] ] ] ].
Proof.
  destruct (update (ex_transformer [0; 1]%nat) ex_examples false None false
                   ex_arrays ex_store) as [[[store' st0] docs']|] eqn:Hupd;
    [|vm_compute in Hupd; discriminate].
  exists store', st0, docs'. split; [reflexivity|].
  destruct (update_gradient_sum (ex_transformer [0; 1]%nat) ex_examples false
              None false ex_arrays ex_store store' st0 docs' ex_c1 [ex_c2])
    as (Hhanded & _ & st_acc & _ & _ & _ & _ & Hsum).
  - exact Hupd.
  - by_computation.
  - intros l Hl.
    repeat (apply elem_of_cons in Hl as [->|Hl]; [by_computation|]).
    by apply elem_of_nil in Hl.
  - reflexivity.
  - by_computation.
  - constructor; [|constructor]. split; [|reflexivity].
    intros a Ha Hin.
    repeat (apply elem_of_cons in Ha as [->|Ha];
            [revert Hin; by_computation|]).
    by apply elem_of_nil in Ha.
  - split; [exact Hhanded|].
    vm_compute in Hupd. injection Hupd as <- <- <-.
    match type of Hsum with ∀ st', ?run = _ → _ =>
      destruct run as [st'|] eqn:Hrun; [|vm_compute in Hrun; discriminate] end.
    exists st'. split; [exact Hrun|].
    destruct (Hsum st' eq_refl) as (g & Hg & ->).
    vm_compute in Hg. by injection Hg as <-.
Defined.

(** C6 as stated fails: after the second listener's contribution has been
    accumulated, the first listener's array at address 10, received one
    call earlier, holds the sum instead of what the listener passed. *)
Lemma accumulate_gradient_mutates_counterexample :
  ∃ st1 st2,
    accumulate_gradient ex_c1 ex_step = Ok st1 ∧
    accumulate_gradient ex_c2 st1 = Ok st2 ∧
    d_tensors st2 = [[10%nat]; [11%nat]] ∧
    arrays st1 !! 10%nat = Some [[1; 1]; [1; 1]; [1; 1]] ∧
    arrays st2 !! 10%nat = Some [[11; 11]; [11; 11]; [11; 11]].
Proof.
  eexists _, _. split; [vm_compute; reflexivity|].
  split; [vm_compute; reflexivity|]. repeat split.
Qed.

(** C6 as amended, on the same two calls: the accumulator keeps the first
    contribution's lists, the second contribution's arrays are intact, and
    the accumulator's array at address 10 holds the sum. *)
Lemma accumulate_gradient_frame_witness :
  ∃ st1 st2,
    accumulate_gradient ex_c1 ex_step = Ok st1 ∧
    accumulate_gradient ex_c2 st1 = Ok st2 ∧
    d_tensors st2 = d_tensors st1 ++ drop (length (d_tensors st1)) (tensors <$> ex_c2) ∧
    arrays st2 !! 20%nat = arrays st1 !! 20%nat ∧
    arrays st2 !! 21%nat = arrays st1 !! 21%nat ∧
    arrays st2 !!! 10%nat = [[11; 11]; [11; 11]; [11; 11]].
Proof.
  destruct (accumulate_gradient ex_c1 ex_step) as [st1|] eqn:H1;
    [|vm_compute in H1; discriminate].
  destruct (accumulate_gradient ex_c2 st1) as [st2|] eqn:H2.
  2:{ vm_compute in H1. injection H1 as <-. vm_compute in H2. discriminate. }
  exists st1, st2. split; [reflexivity|]. split; [exact H2|].
  destruct (accumulate_gradient_frame ex_c2 st1 st2 H2) as (Hd & Hframe & Hadd).
  assert (d_tensors st1 = [[10%nat]; [11%nat]]) as Hacc.
  { vm_compute in H1. by injection H1 as <-. }
  assert (arrays st1 = ex_arrays) as Harr.
  { vm_compute in H1. by injection H1 as <-. }
  split; [exact Hd|].
  split; [apply Hframe; rewrite Hacc; by_computation|].
  split; [apply Hframe; rewrite Hacc; by_computation|].
  assert (NoDup (concat (d_tensors st1))) as ND
    by (rewrite Hacc; by_computation).
  assert (∀ a, a ∈ grad_refs ex_c2 → a ∉ concat (d_tensors st1)) as Hdis.
  { rewrite Hacc. intros a Ha Hin.
    repeat (apply elem_of_cons in Ha as [->|Ha];
            [revert Hin; by_computation|]).
    by apply elem_of_nil in Ha. }
  assert (d_tensors st1 !! 0%nat = Some [10%nat]) as Hrow by (by rewrite Hacc).
  destruct (Hadd ND Hdis 0%nat [10%nat] (mkTransformerData [] [] [20%nat])
                 0%nat 10%nat 20%nat Hrow eq_refl eq_refl eq_refl)
    as [_ Hsum].
  rewrite Hsum; by rewrite Harr.
Defined.

(** C7 as stated fails on the backward function: given the gradient [ex_c1]
    it returns the empty document list, not the gradient. *)
Lemma forward_predict_backward_counterexample :
  ∃ cb,
    forward ex_listener [] false
    = Ok (Some [TransformerData_empty], Some cb) ∧
    call cb ex_c1 ex_step = Ok (PyDocs [], ex_step) ∧
    call cb ex_c1 ex_step ≠ Ok (PyData ex_c1, ex_step).
Proof.
  exists (CbLambdaDocs []). split; [reflexivity|]. split; [reflexivity|].
  simpl. intros [=].
Qed.

(** C8 as stated fails: decoding the bundle of a codec without a model into
    a codec that holds a live model returns that codec, model included. *)
Lemma from_bytes_keeps_live_model_counterexample :
  ∃ bundle,
    @to_bytes ex_msgpack ex_shim_no_model = Ok bundle ∧
    getitem bundle "config" = Ok (VDict ∅) ∧
    @from_bytes ex_msgpack ex_huggingface ex_shim_live bundle = Ok ex_shim_live ∧
    holds_live_model ex_shim_live = true.
Proof.
  eexists. split; [reflexivity|]. split; [by vm_compute|].
  split; [by vm_compute|reflexivity].
Qed.

(** C8 as amended, decoding the same bundle into a codec without a model. *)
Lemma from_bytes_empty_config_witness :
  ∃ bundle,
    @to_bytes ex_msgpack ex_shim_no_model = Ok bundle ∧
    @from_bytes ex_msgpack ex_huggingface ex_shim_no_model bundle
    = Ok ex_shim_no_model ∧
    holds_live_model ex_shim_no_model = false.
Proof.
  destruct (@to_bytes ex_msgpack ex_shim_no_model) as [bundle|] eqn:Hb;
    [|vm_compute in Hb; discriminate].
  exists bundle. split; [reflexivity|]. split; [|reflexivity].
  vm_compute in Hb. injection Hb as <-.
  eapply (@from_bytes_empty_config ex_msgpack ex_huggingface ex_shim_no_model
            _ _ (VDict ∅)).
  - reflexivity.
  - vm_compute. reflexivity.
  - reflexivity.
  - vm_compute. reflexivity.
  - vm_compute. reflexivity.
  - vm_compute. reflexivity.
Defined.

(** C9 on a codec with a live model and on one without. *)
Lemma to_bytes_bundle_witness :
  (∃ b msg, @to_bytes ex_msgpack ex_shim_live = Ok b ∧
            @msgpack_loads ex_msgpack b = Ok (VDict msg) ∧
            dom msg = bundle_keys) ∧
  (∃ b msg, @to_bytes ex_msgpack ex_shim_no_model = Ok b ∧
            @msgpack_loads ex_msgpack b = Ok (VDict msg) ∧
            msg !! "config" = Some (VDict ∅) ∧
            msg !! "state" = Some (VDict ∅) ∧
            msg !! "tokenizer" = Some (VDict ∅)).
Proof.
  split.
  - destruct (@to_bytes ex_msgpack ex_shim_live) as [b|] eqn:Hb;
      [|vm_compute in Hb; discriminate].
    destruct (proj1 (@to_bytes_bundle ex_msgpack ex_shim_live) b Hb)
      as (msg & Hmsg & Hdom).
    by exists b, msg.
  - apply (proj2 (@to_bytes_bundle ex_msgpack ex_shim_no_model)). reflexivity.
Defined.

(* ===================================================================== *)
(** * Part III: further properties of the code                            *)
(* ===================================================================== *)

(** ** Broadcast and consumption *)

Section BroadcastFacts.
Context {R : Type} `{!NumOps R}.

Lemma forward_with_batch_id (x : TransformerListener (R:=R)) b docs :
  _batch_id x = Some b →
  forward x docs true
  = if bool_decide (b = get_batch_id docs) then Ok (_outputs x, _backprop x)
    else Raise (ValueError (MismatchedIDs (get_batch_id docs) (Some b))).
Proof.
  intros Hb. unfold forward. rewrite (verify_inputs_Some _ docs b) by done.
  by case_bool_decide.
Qed.

(** X1.  [predict] broadcasts to every registered listener the fingerprint
    of the documents, the per-document outputs of the batch and no gradient
    acceptor, keeps what else the listener holds, and leaves every listener
    that is not registered as it was. *)
Theorem predict_broadcast (self : Transformer (R:=R)) docs store act store' :
  predict self docs store = Ok (act, store') →
  model_predict (model self) docs = Ok act ∧
  (∀ l x, l ∈ listeners self → store !! l = Some x →
     ∃ x', store' !! l = Some x' ∧
           _batch_id x' = Some (get_batch_id docs) ∧
           _outputs x' = Some (doc_data act) ∧
           _backprop x' = None ∧
           upstream_name x' = upstream_name x ∧ nO x' = nO x) ∧
  (∀ l, l ∉ listeners self → store' !! l = store !! l).
Proof.
  unfold predict. intros Hrun.
  destruct (model_predict (model self) docs) as [a|]; simpl in Hrun; [|done].
  injection Hrun as <- <-. split; [done|]. split.
  - intros l x Hl Hx. rewrite receive_all_lookup, decide_True, Hx by done.
    eexists. split; [done|]. by repeat split.
  - intros l Hl. by rewrite receive_all_lookup, decide_False.
Qed.

Lemma update_store (self : Transformer (R:=R)) examples sgd0 losses0
    set_annots h store store' st0 docs' :
  update self examples sgd0 losses0 set_annots h store = Ok (store', st0, docs') →
  ∃ init lst,
    listeners self = init ++ [lst] ∧
    store' = alter (receive (get_batch_id (eg_doc <$> examples))
                            (doc_data (trf_full st0)) (Some CbBackprop)) lst
               (receive_all init (get_batch_id (eg_doc <$> examples))
                            (doc_data (trf_full st0))
                            (Some CbAccumulateGradient) store).
Proof.
  unfold update. intros Hupd.
  destruct (model_begin_update (model self) (eg_doc <$> examples))
    as [[trf bp]|]; simpl in Hupd; [|done].
  unfold last_item in Hupd.
  destruct (last (listeners self)) as [lst|] eqn:Hlast; simpl in Hupd; [|done].
  injection Hupd as <- <- <-.
  apply last_Some in Hlast as [init Hinit]. exists init, lst. split; [done|].
  rewrite Hinit. unfold all_but_last. rewrite length_app. simpl.
  rewrite Nat.add_1_r. simpl. by rewrite Nat.sub_0_r, take_app_length.
Qed.

(** X2.  After [update], every registered listener asked in training mode
    about the documents of the step returns the per-document outputs of the
    step's batch and its acceptor: [backprop] for the listener object at the
    end of the list, [accumulate_gradient] for every other one.  This holds
    also when an object is registered more than once. *)
Theorem update_then_forward (self : Transformer (R:=R)) examples sgd0 losses0
    set_annots h store store' st0 docs' l x :
  update self examples sgd0 losses0 set_annots h store = Ok (store', st0, docs') →
  l ∈ listeners self →
  store !! l = Some x →
  ∃ x', store' !! l = Some x' ∧
    forward x' (eg_doc <$> examples) true
    = Ok (Some (doc_data (trf_full st0)),
          Some (if decide (last (listeners self) = Some l) then CbBackprop
                else CbAccumulateGradient)).
Proof.
  intros Hupd Hl Hx.
  destruct (update_store _ _ _ _ _ _ _ _ _ _ Hupd) as (init & lst & Hls & ->).
  rewrite Hls in *. rewrite last_snoc.
  destruct (decide (Some lst = Some l)) as [[= ->]|Hne].
  - rewrite lookup_alter_eq, receive_all_lookup.
    set (b := get_batch_id (eg_doc <$> examples)).
    set (o := doc_data (trf_full st0)).
    destruct (decide (l ∈ init)); rewrite Hx.
    + exists (receive b o (Some CbBackprop)
                (receive b o (Some CbAccumulateGradient) x)).
      split; [done|]. erewrite forward_with_batch_id; [|reflexivity].
      by rewrite bool_decide_eq_true_2.
    + exists (receive b o (Some CbBackprop) x).
      split; [done|]. erewrite forward_with_batch_id; [|reflexivity].
      by rewrite bool_decide_eq_true_2.
  - assert (lst ≠ l) as Hne' by congruence.
    rewrite lookup_alter_ne by done.
    apply elem_of_app in Hl as [Hl|Hl]; [|by apply list_elem_of_singleton in Hl].
    rewrite receive_all_lookup, decide_True, Hx by done.
    eexists; split; [done|].
    erewrite forward_with_batch_id; [|reflexivity].
    by rewrite bool_decide_eq_true_2.
Qed.

(** X3.  [update] touches no listener outside the component's list. *)
Theorem update_unregistered_unchanged (self : Transformer (R:=R)) examples
    sgd0 losses0 set_annots h store store' st0 docs' l :
  update self examples sgd0 losses0 set_annots h store = Ok (store', st0, docs') →
  l ∉ listeners self →
  store' !! l = store !! l.
Proof.
  intros Hupd Hl.
  destruct (update_store _ _ _ _ _ _ _ _ _ _ Hupd) as (init & lst & Hls & ->).
  rewrite Hls in Hl. apply not_elem_of_app in Hl as [Hinit Hlst].
  rewrite lookup_alter_ne by (intros ->; apply Hlst; by left).
  by rewrite receive_all_lookup, decide_False.
Qed.

(** X4.  The identity check compares sums only.  A listener that received
    the outputs of one batch accepts, in training mode, any batch whose
    token identities have the same sum, and hands out the outputs of the
    batch it received; any other batch is refused with the two sums in the
    message. *)
Theorem forward_accepts_equal_sum (x : TransformerListener (R:=R))
    (docs1 docs2 : list (Doc (R:=R))) outputs cb :
  (py_sum (batch_orths docs2) = py_sum (batch_orths docs1) →
     forward (receive (get_batch_id docs1) outputs cb x) docs2 true
     = Ok (Some outputs, cb)) ∧
  (py_sum (batch_orths docs2) ≠ py_sum (batch_orths docs1) →
     forward (receive (get_batch_id docs1) outputs cb x) docs2 true
     = Raise (ValueError (MismatchedIDs (py_sum (batch_orths docs2))
                                        (Some (py_sum (batch_orths docs1)))))).
Proof.
  erewrite forward_with_batch_id; [|reflexivity].
  rewrite !get_batch_id_orths. simpl. split; intros Hs.
  - by rewrite bool_decide_eq_true_2.
  - by rewrite bool_decide_eq_false_2.
Qed.

(** X5.  The fingerprint is additive: the empty batch has fingerprint 0, a
    document without tokens adds nothing, and the fingerprint of two batches
    put one after the other is the sum of their fingerprints. *)
Theorem get_batch_id_app (docs1 docs2 : list (Doc (R:=R))) d :
  get_batch_id ([] : list (Doc (R:=R))) = 0 ∧
  get_batch_id (mkDoc [] d :: docs1) = get_batch_id docs1 ∧
  get_batch_id (docs1 ++ docs2) = get_batch_id docs1 + get_batch_id docs2.
Proof.
  split; [done|]. split.
  - rewrite !get_batch_id_orths. done.
  - rewrite !get_batch_id_orths. unfold batch_orths.
    by rewrite fmap_app, concat_app, py_sum_app.
Qed.

(** X6.  Outside training [forward] never raises and does not look at the
    listener: it returns the outputs stored on the documents, one per
    document and a single empty one for no documents, and a backward
    function that returns the documents whatever gradient it is given. *)
Theorem forward_predict_mode (model model' : TransformerListener (R:=R)) docs :
  forward model docs false = forward model' docs false ∧
  ∃ outs cb,
    forward model docs false = Ok (Some outs, Some cb) ∧
    length outs = Nat.max 1 (length docs) ∧
    (docs ≠ [] → outs = trf_data <$> docs) ∧
    ∀ d_data st, call cb d_data st = Ok (PyDocs docs, st).
Proof.
  split; [done|]. unfold forward. destruct docs as [|d docs].
  - eexists _, _. split; [done|]. by repeat split.
  - rewrite bool_decide_eq_false_2 by done.
    eexists _, _. split; [done|]. repeat split.
    rewrite length_fmap. simpl. done.
Qed.

Lemma set_annotations_null_lookup (self : Transformer (R:=R)) docs outputs i :
  annotation_setter self = null_annotation_setter →
  set_annotations self docs outputs !! i
  = (λ doc, mkDoc (doc_tokens doc)
                  (default (trf_data doc) (doc_data outputs !! i))) <$> docs !! i.
Proof.
  intros Hnull. unfold set_annotations. rewrite Hnull.
  unfold null_annotation_setter. rewrite list_lookup_imap.
  destruct (docs !! i) as [doc|]; [|done]. simpl.
  destruct (doc_data outputs !! i); [done|by destruct doc].
Qed.

Lemma set_annotations_null_tokens (self : Transformer (R:=R)) docs outputs :
  annotation_setter self = null_annotation_setter →
  doc_tokens <$> set_annotations self docs outputs = doc_tokens <$> docs.
Proof.
  intros Hnull. apply list_eq; intros i.
  rewrite !list_lookup_fmap, set_annotations_null_lookup by done.
  by destruct (docs !! i).
Qed.




End BroadcastFacts.

(** ** The acceptors: loss, errors and the backward call *)

Section AcceptorFacts.
Context {R : Type} `{!NumOps R}.
Implicit Types (h : gmap addr (tensor2 R)) (st : train_step (R:=R)).

Lemma loss_after_ext h h' v refs :
  (∀ a, a ∈ refs → h' !! a = h !! a) → loss_after h' v refs = loss_after h v refs.
Proof.
  unfold loss_after. revert v. induction refs as [|a refs IH]; intros v Hext; [done|].
  simpl. rewrite !lookup_total_alt, (Hext a) by left.
  apply IH. intros a' Ha'. apply Hext. by right.
Qed.

Lemma add_losses_inv ts st st1 :
  add_losses ts st = Ok st1 →
  ∃ l1, st1 = set_losses st l1 ∧
        (∀ k, k ≠ self_name st → l1 !! k = losses st !! k) ∧
        (losses st !! self_name st = None → l1 !! self_name st = None) ∧
        (∀ v, losses st !! self_name st = Some v →
              l1 !! self_name st = Some (loss_after (arrays st) v ts)).
Proof.
  revert st. induction ts as [|a ts IH]; intros st Hrun.
  - injection Hrun as <-. exists (losses st). split; [by destruct st|].
    by repeat split.
  - simpl in Hrun.
    destruct (losses st !! self_name st) as [v|] eqn:Hv; simpl in Hrun; [|done].
    apply IH in Hrun as (l1 & -> & Hother & _ & Hname). simpl in *.
    exists l1. split; [done|]. split; [|split].
    + intros k Hk. rewrite Hother by done. by rewrite lookup_insert_ne.
    + done.
    + intros v' [= <-]. apply Hname. by rewrite lookup_insert_eq.
Qed.





Lemma accumulate_loop_fields i (ds : list (TransformerData addr)) st st' :
  accumulate_loop i ds st = Ok st' →
  same_dispatch st st' ∧
  (∀ k, k ≠ self_name st → losses st' !! k = losses st !! k) ∧
  (losses st !! self_name st = None → losses st' !! self_name st = None).
Proof.
  revert i st. induction ds as [|d ds IH]; intros i st Hrun.
  - injection Hrun as <-. by repeat split.
  - simpl in Hrun.
    destruct (add_losses (tensors d) st) as [st1|] eqn:Hl; simpl in Hrun; [|done].
    apply add_losses_inv in Hl as (l1 & -> & Hother & Hnone & _).
    simpl in Hrun.
    destruct (decide (length (d_tensors st) ≤ i)%nat); simpl in Hrun.
    + apply IH in Hrun as ((?&?&?&?&?&?&?) & Hk & Hn). simpl in *.
      split; [by repeat split|]. split.
      * intros k Hne. by rewrite Hk, Hother.
      * intros Hv. apply Hn. by apply Hnone.
    + destruct (d_tensors st !! i) as [row|]; simpl in Hrun; [|done].
      destruct (iadd_tensors row 0 (tensors d) (arrays st)) as [h1|];
        simpl in Hrun; [|done].
      apply IH in Hrun as ((?&?&?&?&?&?&?) & Hk & Hn). simpl in *.
      split; [by repeat split|]. split.
      * intros k Hne. by rewrite Hk, Hother.
      * intros Hv. apply Hn. by apply Hnone.
Qed.

(** X9.  [accumulate_gradient] only accumulates: it never calls the
    encoder's backward callable nor the optimizer, keeps the batch of the
    step, and changes no entry of [losses] other than the component's own. *)
Theorem accumulate_gradient_only_accumulates
    (ds : list (TransformerData addr)) st st' :
  accumulate_gradient ds st = Ok st' →
  bp_trf_full_calls st' = bp_trf_full_calls st ∧
  finish_update_calls st' = finish_update_calls st ∧
  trf_full st' = trf_full st ∧
  ∀ k, k ≠ self_name st → losses st' !! k = losses st !! k.
Proof.
  intros Hrun.
  apply accumulate_loop_fields in Hrun as ((?&?&?&?&?&?&?) & Hk & _).
  by repeat split.
Qed.

Lemma accumulate_loop_append_loss i (ds : list (TransformerData addr)) st st' v :
  (length (d_tensors st) ≤ i)%nat →
  accumulate_loop i ds st = Ok st' →
  losses st !! self_name st = Some v →
  losses st' !! self_name st = Some (loss_after (arrays st) v (grad_refs ds)).
Proof.
  revert i st v. induction ds as [|d ds IH]; intros i st v Hi Hrun Hv.
  - by injection Hrun as <-.
  - simpl in Hrun.
    destruct (add_losses (tensors d) st) as [st1|] eqn:Hl; simpl in Hrun; [|done].
    apply add_losses_inv in Hl as (l1 & -> & _ & _ & Hname).
    simpl in Hrun. rewrite decide_True in Hrun by done. simpl in Hrun.
    eapply (IH (S i)) in Hrun; [|simpl; rewrite length_app; simpl; lia
                                |simpl; by apply Hname].
    simpl in Hrun. rewrite Hrun. unfold grad_refs, loss_after.
    rewrite fmap_cons. change (concat (?x :: ?l)) with (x ++ concat l).
    by rewrite foldl_app.
Qed.

Lemma accumulate_loop_loss h0 i (ds : list (TransformerData addr)) st st' v :
  accumulate_loop i ds st = Ok st' →
  losses st !! self_name st = Some v →
  (∀ a, a ∈ grad_refs ds → a ∉ concat (d_tensors st)) →
  (∀ a, a ∈ grad_refs ds → arrays st !! a = h0 !! a) →
  losses st' !! self_name st = Some (loss_after h0 v (grad_refs ds)).
Proof.
  revert i st v. induction ds as [|d ds IH]; intros i st v Hrun Hv Hdis Hagree.
  - by injection Hrun as <-.
  - assert (∀ a, a ∈ tensors d → a ∈ grad_refs (d :: ds)) as Hin_d.
    { intros a Ha. unfold grad_refs. rewrite fmap_cons.
      change (a ∈ tensors d ++ concat (tensors <$> ds)).
      apply elem_of_app. by left. }
    assert (∀ a, a ∈ grad_refs ds → a ∈ grad_refs (d :: ds)) as Hin_ds.
    { intros a Ha. unfold grad_refs. rewrite fmap_cons.
      change (a ∈ tensors d ++ concat (tensors <$> ds)).
      apply elem_of_app. by right. }
    assert (loss_after h0 v (grad_refs (d :: ds))
            = loss_after h0 (loss_after (arrays st) v (tensors d)) (grad_refs ds))
      as ->.
    { unfold grad_refs. rewrite fmap_cons.
      change (concat (?x :: ?l)) with (x ++ concat l).
      unfold loss_after at 1. rewrite foldl_app.
      fold (loss_after h0 v (tensors d)).
      rewrite <- (loss_after_ext h0 (arrays st) v (tensors d)); [done|].
      intros a Ha. by apply Hagree, Hin_d. }
    destruct (decide (length (d_tensors st) ≤ i)%nat) as [Hi|Hi].
    { rewrite (accumulate_loop_append_loss _ _ _ _ _ Hi Hrun Hv).
      f_equal. unfold grad_refs. rewrite fmap_cons.
      change (concat (?x :: ?l)) with (x ++ concat l).
      unfold loss_after at 1. rewrite foldl_app.
      apply loss_after_ext. intros a Ha. by apply Hagree, Hin_ds. }
    simpl in Hrun.
    destruct (add_losses (tensors d) st) as [st1|] eqn:Hl; simpl in Hrun; [|done].
    apply add_losses_inv in Hl as (l1 & -> & _ & _ & Hname).
    simpl in Hrun. rewrite decide_False in Hrun by done.
    destruct (d_tensors st !! i) as [row|] eqn:Hrow; simpl in Hrun; [|done].
    destruct (iadd_tensors row 0 (tensors d) (arrays st)) as [h1|] eqn:Hadd;
      simpl in Hrun; [|done].
    eapply IH in Hrun; [exact Hrun|simpl; by apply Hname| |].
    + simpl. intros a Ha. by apply Hdis, Hin_ds.
    + simpl. intros a Ha. rewrite <- Hagree by by apply Hin_ds.
      apply (iadd_tensors_frame _ _ _ _ _ Hadd). intros Hin.
      apply (Hdis a (Hin_ds a Ha)). apply elem_of_concat. exists row.
      split; [done|]. by eapply list_elem_of_lookup_2.
Qed.

(** X10.  The loss.  An accumulation whose arrays are not among those the
    accumulator holds adds to [losses[self.name]] the sum of squares of
    every gradient array of the contribution, document by document and
    tensor by tensor, as the arrays were when the acceptor was called. *)
Theorem accumulate_gradient_loss (ds : list (TransformerData addr)) st st' v :
  accumulate_gradient ds st = Ok st' →
  losses st !! self_name st = Some v →
  (∀ a, a ∈ grad_refs ds → a ∉ concat (d_tensors st)) →
  losses st' !! self_name st
  = Some (foldl (λ acc a, radd acc (sq_sum (arrays st !!! a))) v (grad_refs ds)).
Proof.
  intros Hrun Hv Hdis.
  by apply (accumulate_loop_loss (arrays st) 0 ds st st' v).
Qed.

(** X11.  The first contribution of a step is taken as it comes: whatever
    its shape, it is accepted, its tensor lists become the accumulator and
    no array is written. *)
Theorem first_contribution_accepted (ds : list (TransformerData addr)) st :
  d_tensors st = [] →
  is_Some (losses st !! self_name st) →
  ∃ st', accumulate_gradient ds st = Ok st' ∧
         d_tensors st' = tensors <$> ds ∧ arrays st' = arrays st.
Proof.
  intros Hd Hloss.
  destruct (accumulate_loop_append 0 ds st) as (l' & Hrun & _);
    [rewrite Hd; simpl; lia|done|].
  eexists. split; [exact Hrun|]. simpl. by rewrite Hd.
Qed.



(** X13.  [backprop] accumulates its contribution like any other acceptor,
    and an error of the accumulation is the error of [backprop].  After the
    accumulation it merges the arrays the accumulator then holds, calls the
    encoder's backward callable on the merged gradient and, when an
    optimizer was passed to [update], asks the model for an optimizer step;
    what any of the three raises propagates.  When [backprop] returns, the
    backward callable has been called once, on that merge, [backprop]
    returns what the call returned, and the optimizer step was taken
    exactly when an optimizer was passed. *)
Theorem backprop_dispatch (ds : list (TransformerData addr)) st :
  (∀ e, accumulate_gradient ds st = Raise e → backprop ds st = Raise e) ∧
  (∀ st1, accumulate_gradient ds st = Ok st1 →
     backprop ds st
     = (g ← unsplit_by_doc (trf_full st)
            (read_arrays (arrays st1) (d_tensors st1));
        d_docs ← bp_trf_full st g;
        _ ← (if sgd st then finish_update st else Ok ());
        Ok (d_docs, after_backward st1 g))) ∧
  (∀ d_docs st', backprop ds st = Ok (d_docs, st') →
     ∃ g, unsplit_by_doc (trf_full st)
            (read_arrays (arrays st') (d_tensors st')) = Ok g ∧
          bp_trf_full_calls st' = g :: bp_trf_full_calls st ∧
          bp_trf_full st g = Ok d_docs ∧
          (sgd st = true → finish_update st = Ok ()) ∧
          finish_update_calls st'
          = (if sgd st then S (finish_update_calls st)
             else finish_update_calls st)).
Proof.
  unfold backprop. split; [|split].
  - intros e ->. done.
  - intros st1 Hacc. rewrite Hacc. cbn [mbind result_bind].
    apply accumulate_loop_fields in Hacc
      as ((?&Htrf&Hbp&Hfu&Hsgd&Hcalls&Hfin) & _).
    by rewrite Htrf, Hbp, Hfu, Hsgd.
  - intros d_docs st'.
    destruct (accumulate_gradient ds st) as [st1|] eqn:Hacc; simpl; [|done].
    apply accumulate_loop_fields in Hacc
      as ((?&Htrf&Hbp&Hfu&Hsgd&Hcalls&Hfin) & _).
    rewrite Htrf, Hbp, Hfu, Hsgd.
    destruct (unsplit_by_doc (trf_full st)
                (read_arrays (arrays st1) (d_tensors st1))) as [g|] eqn:Hg;
      simpl; [|done].
    destruct (bp_trf_full st g) as [d|] eqn:Hbpg; simpl; [|done].
    destruct (sgd st) eqn:Hs.
    + destruct (finish_update st) as [[]|] eqn:Hf; simpl; [|done].
      intros [= <- <-]. exists g. simpl. rewrite Hcalls, Hfin, Hsgd.
      by repeat split.
    + simpl. intros [= <- <-]. exists g. simpl. rewrite Hcalls, Hfin, Hsgd.
      by repeat split.
Qed.

End AcceptorFacts.

(** ** The codec: bundles and their decoding *)

Section CodecFacts.
Context `{!Msgpack} `{!HuggingFace}.

Lemma tok_dict_lookup (files : list (string * list Byte.byte))
    (d : gmap string value) (nm : string) :
  foldl (λ (d : gmap string value) x, <[x.1 := VBytes x.2]> d) d files !! nm
  = match last_file nm files with
    | Some content => Some (VBytes content)
    | None => d !! nm
    end.
Proof.
  unfold last_file. revert d. induction files as [|x files IH]; intros d; [done|].
  simpl. rewrite IH. rewrite filter_cons.
  destruct (decide (x.1 = nm)) as [Hx|Hx].
  - rewrite last_cons.
    destruct (last (filter (λ x0, x0.1 = nm) files)); simpl; [done|].
    by rewrite Hx, lookup_insert_eq.
  - destruct (last (filter (λ x0, x0.1 = nm) files)); simpl; [done|].
    by rewrite lookup_insert_ne.
Qed.

(** X14.  [to_bytes] succeeds exactly when there is no encoder, or both a
    tokenizer and the shim's own model are there to be saved. *)
Theorem to_bytes_ok_iff (self : HFShim) :
  is_ok (to_bytes self) = true ↔
  transformer (_hfmodel self) = None ∨
  (is_Some (tokenizer (_hfmodel self)) ∧ is_Some (_model self)).
Proof.
  unfold to_bytes, to_bytes_msg.
  destruct (transformer (_hfmodel self)) as [trf|]; simpl; [|by intuition].
  destruct (tokenizer (_hfmodel self)) as [tok|]; simpl.
  - destruct (_model self) as [m|]; simpl.
    + split; [intros _; right; split; eauto|done].
    + split; [done|]. intros [|[_ []]]; done.
  - split; [done|]. intros [|[[] _]]; done.
Qed.

(** X15.  The bundle of a live model.  Its config is the encoder's
    configuration dictionary, its state the saved weights of the shim's own
    model, its two option dictionaries those of the shim; its tokenizer
    entry maps every saved file name to that file's bytes, and of several
    files with one name it keeps the last one listed. *)
Theorem to_bytes_live_bundle (self : HFShim) trf tok m :
  transformer (_hfmodel self) = Some trf →
  tokenizer (_hfmodel self) = Some tok →
  _model self = Some m →
  ∃ b msg td,
    to_bytes self = Ok b ∧ msgpack_loads b = Ok (VDict msg) ∧
    msg !! "config" = Some (VDict (hf_config trf)) ∧
    msg !! "state" = Some (VBytes (hf_state m)) ∧
    msg !! "tokenizer" = Some (VDict td) ∧
    (∀ nm, td !! nm = VBytes <$> last_file nm (saved_files tok)) ∧
    msg !! "tokenizer_config" = Some (VDict (tokenizer_config (_hfmodel self))) ∧
    msg !! "transformer_config"
    = Some (VDict (transformer_config (_hfmodel self))).
Proof.
  intros Htrf Htok Hm. unfold to_bytes, to_bytes_msg.
  rewrite Htrf, Htok, Hm. simpl.
  eexists _, _, _. split; [done|]. split; [apply msgpack_loads_dumps|].
  split; [by simplify_map_eq|]. split; [by simplify_map_eq|].
  split; [by simplify_map_eq|]. split; [|split; by simplify_map_eq].
  intros nm. rewrite tok_dict_lookup, lookup_empty.
  by destruct (last_file nm (saved_files tok)).
Qed.

(** X16.  Malformed bundles.  [from_bytes] on bytes that do not decode to a
    map raises [TypeError], and on a map that lacks one of the four keys it
    reads first it raises [KeyError] for the first one missing, in the order
    config, tokenizer, tokenizer_config, transformer_config. *)
Theorem from_bytes_malformed (self : HFShim) (bytes_data : blob) :
  (∀ v, msgpack_loads bytes_data = Ok v → (∀ d, v ≠ VDict d) →
        from_bytes self bytes_data = Raise TypeError) ∧
  (∀ d pre k post,
     msgpack_loads bytes_data = Ok (VDict d) →
     required_keys = pre ++ k :: post →
     (∀ k', k' ∈ pre → is_Some (d !! k')) →
     d !! k = None →
     from_bytes self bytes_data = Raise (KeyError k)).
Proof.
  split.
  - intros v Hv Hnd. unfold from_bytes. rewrite Hv. simpl.
    destruct v; try done. by destruct (Hnd d).
  - intros d pre k post Hd Hkeys Hpre Hk. unfold from_bytes. rewrite Hd. simpl.
    unfold required_keys in Hkeys.
    destruct pre as [|k1 pre]; simpl in Hkeys.
    { injection Hkeys as <- _. by rewrite Hk. }
    injection Hkeys as <- Hkeys.
    destruct (Hpre "config") as [v1 ->]; [by left|]. simpl.
    destruct pre as [|k2 pre]; simpl in Hkeys.
    { injection Hkeys as <- _. by rewrite Hk. }
    injection Hkeys as <- Hkeys.
    destruct (Hpre "tokenizer") as [v2 ->]; [right; by left|]. simpl.
    destruct pre as [|k3 pre]; simpl in Hkeys.
    { injection Hkeys as <- _. by rewrite Hk. }
    injection Hkeys as <- Hkeys.
    destruct (Hpre "tokenizer_config") as [v3 ->]; [right; right; by left|]. simpl.
    destruct pre as [|k4 pre]; simpl in Hkeys.
    { injection Hkeys as <- _. by rewrite Hk. }
    injection Hkeys as <- Hkeys. by destruct pre.
Qed.

(** X17.  Encoding and decoding without a configuration.  The bundle of a
    shim without encoder, and also that of a shim whose encoder has an empty
    configuration dictionary, decodes into any shim without raising and
    without changing it: nothing of the bundle, the two option dictionaries
    and the weights included, reaches the receiving shim. *)
Theorem from_bytes_to_bytes_no_config (self self' : HFShim) b :
  to_bytes self = Ok b →
  transformer (_hfmodel self) = None ∨
  (∃ trf, transformer (_hfmodel self) = Some trf ∧ hf_config trf = ∅) →
  from_bytes self' b = Ok self'.
Proof.
  unfold to_bytes, to_bytes_msg, from_bytes. intros Hb Hcfg.
  destruct (transformer (_hfmodel self)) as [trf|] eqn:Htrf; simpl in Hb.
  - destruct Hcfg as [|(trf' & [= <-] & Hempty)]; [done|].
    destruct (tokenizer (_hfmodel self)); simpl in Hb; [|done].
    destruct (_model self); simpl in Hb; [|done].
    injection Hb as <-. rewrite msgpack_loads_dumps. simpl.
    rewrite Hempty. by simplify_map_eq.
  - injection Hb as <-. rewrite msgpack_loads_dumps. simpl.
    by simplify_map_eq.
Qed.


End CodecFacts.

(** ** [pipe]: nothing is lost *)

Section PipeFacts.
Context {R : Type} `{!NumOps R}.

Lemma batch_docs_inv (as_example : bool) (batch : list (stream_item (R:=R))) docs :
  batch_docs as_example batch = Ok docs → docs = eg2doc <$> batch.
Proof.
  revert docs. induction batch as [|x batch IH]; intros docs Hrun.
  - by injection Hrun as <-.
  - simpl in Hrun.
    assert (∃ ds, batch_docs as_example batch = Ok ds ∧ docs = eg2doc x :: ds)
      as (ds & Hds & ->).
    { destruct as_example, x; simpl in Hrun; try done;
        destruct (batch_docs _ batch) as [ds|]; simpl in Hrun; try done;
        injection Hrun as <-; by exists ds. }
    by rewrite (IH ds Hds).
Qed.

Lemma pipe_loop_inv (self : Transformer (R:=R)) as_example
    (batches : list (list stream_item)) tr tr' :
  annotation_setter self = null_annotation_setter →
  pipe_loop self as_example batches tr = Ok tr' →
  concat (predict_calls tr')
  = concat (predict_calls tr) ++ (eg2doc <$> concat batches) ∧
  doc_tokens <$> concat (yielded tr')
  = (doc_tokens <$> concat (yielded tr))
    ++ (doc_tokens <$> (eg2doc <$> concat batches)) ∧
  length (yielded tr') = (length (yielded tr) + length batches)%nat ∧
  length (predict_calls tr')
  = (length (predict_calls tr) + length batches)%nat.
Proof.
  intros Hnull. revert tr.
  induction batches as [|b batches IH]; intros tr Hrun.
  - injection Hrun as <-. rewrite !app_nil_r. split; [done|]. split; [done|].
    simpl. lia.
  - simpl in Hrun.
    destruct (batch_docs as_example b) as [docs|] eqn:Hb; simpl in Hrun; [|done].
    apply batch_docs_inv in Hb as ->.
    destruct (predict self (eg2doc <$> b) (pipe_store tr)) as [[outputs st']|];
      simpl in Hrun; [|done].
    apply IH in Hrun as (Hcalls & Hyield & Hlen & Hlen'). simpl in *.
    change (concat (b :: batches)) with (b ++ concat batches).
    rewrite !concat_app in *. simpl in *. rewrite !app_nil_r in *.
    rewrite !fmap_app in *. rewrite length_app in Hlen, Hlen'.
    simpl in Hlen, Hlen'.
    split; [|split; [|split]].
    + by rewrite Hcalls, <- app_assoc.
    + rewrite Hyield, set_annotations_null_tokens by done.
      by rewrite <- app_assoc.
    + lia.
    + lia.
Qed.

(** X19.  With the default annotation setter and a positive batch size, a
    run of [pipe] that completes has passed every document of the stream to
    [predict] exactly once and in stream order, and has yielded the same
    documents, tokens unchanged, in the same order. *)
Theorem pipe_keeps_documents (self : Transformer (R:=R))
    (stream : list stream_item) batch_size as_example store tr :
  annotation_setter self = null_annotation_setter →
  0 < Z.max batch_size (cfg_max_batch_size self) →
  pipe self stream batch_size as_example store = Ok tr →
  concat (predict_calls tr) = eg2doc <$> stream ∧
  doc_tokens <$> concat (yielded tr) = doc_tokens <$> (eg2doc <$> stream) ∧
  length (yielded tr) = length (predict_calls tr).
Proof.
  intros Hnull Hpos. unfold pipe, minibatch.
  case_bool_decide; simpl; intros Hrun; [done|].
  set (n := Z.to_nat (Z.max batch_size (cfg_max_batch_size self))) in *.
  destruct (minibatch_slices_spec (length stream) n stream) as (Hcat & _);
    [unfold n; lia|done|].
  apply pipe_loop_inv in Hrun as (Hc & Hy & Hl & Hl'); [|done]. simpl in *.
  rewrite Hcat in *. split; [done|]. split; [done|]. lia.
Qed.

End PipeFacts.

(** ** Registration *)

Section RegistrationFacts.
Context {R : Type} `{!NumOps R}.

(** X20.  [find_listeners] appends to the list, in walk order, exactly the
    listener nodes whose [upstream_name] is the component's name, once per
    occurrence and without looking at what is registered already; it
    changes nothing else of the component. *)
Theorem find_listeners_registers (self : Transformer (R:=R)) nodes store :
  listeners (find_listeners self nodes store)
  = listeners self ++ matching_listeners (name self) nodes store ∧
  name (find_listeners self nodes store) = name self ∧
  cfg_max_batch_size (find_listeners self nodes store) = cfg_max_batch_size self.
Proof.
  unfold find_listeners, matching_listeners. revert self.
  induction nodes as [|node nodes IH]; intros self.
  - simpl. by rewrite app_nil_r.
  - simpl. destruct node as [l|]; [|apply IH].
    destruct (store !! l) as [x|]; [|apply IH].
    case_bool_decide; [|apply IH].
    destruct (IH (add_listener self l)) as (Hl & Hn & Hc).
    simpl in *. rewrite Hl, Hn, Hc. by rewrite <- app_assoc.
Qed.

(** X21.  A listener added with [add_listener] becomes the last of the
    list: the next [update] hands it [backprop], and hands
    [accumulate_gradient] to every other listener object registered before,
    the previous last one included. *)
Theorem add_listener_takes_backprop (self : Transformer (R:=R)) new examples
    sgd0 losses0 set_annots h store store' st0 docs' :
  update (add_listener self new) examples sgd0 losses0 set_annots h store
  = Ok (store', st0, docs') →
  (∀ l, l ∈ new :: listeners self → is_Some (store !! l)) →
  store' !! new ≫= _backprop = Some CbBackprop ∧
  ∀ l, l ∈ listeners self → l ≠ new →
       store' !! l ≫= _backprop = Some CbAccumulateGradient.
Proof.
  intros Hupd Hstore.
  destruct (update_store _ _ _ _ _ _ _ _ _ _ Hupd) as (init & lst & Hls & ->).
  simpl in Hls. apply app_inj_tail in Hls as [<- <-]. split.
  - rewrite lookup_alter_eq, receive_all_lookup.
    destruct (Hstore new) as [x ->]; [by left|]. by case_decide.
  - intros l Hl Hne. rewrite lookup_alter_ne by done.
    rewrite receive_all_lookup, decide_True by done.
    destruct (Hstore l) as [x ->]; [by right|]. done.
Qed.

(** X22.  The state [update] sets up for the acceptors.  The accumulator
    starts empty and no backward call has been made; [losses] gets an entry
    0.0 for the component unless it has one already, which is kept, and its
    other entries are kept; so the acceptor invoked first accepts whatever
    contribution it is given. *)
Theorem update_initial_step (self : Transformer (R:=R)) examples sgd0 losses0
    set_annots h store store' st0 docs' :
  update self examples sgd0 losses0 set_annots h store = Ok (store', st0, docs') →
  d_tensors st0 = [] ∧ bp_trf_full_calls st0 = [] ∧
  finish_update_calls st0 = 0%nat ∧ arrays st0 = h ∧
  losses st0 !! name self
  = Some (default rzero (default ∅ losses0 !! name self)) ∧
  (∀ k, k ≠ name self → losses st0 !! k = default ∅ losses0 !! k) ∧
  ∀ ds, ∃ st1, accumulate_gradient ds st0 = Ok st1 ∧
               d_tensors st1 = tensors <$> ds ∧ arrays st1 = h.
Proof.
  unfold update. intros Hupd.
  destruct (model_begin_update (model self) (eg_doc <$> examples))
    as [[trf bp]|]; simpl in Hupd; [|done].
  destruct (last_item (listeners self)); simpl in Hupd; [|done].
  injection Hupd as <- <- <-. simpl.
  assert (match default ∅ losses0 !! name self with
          | Some _ => default ∅ losses0
          | None => <[name self := rzero]> (default ∅ losses0)
          end !! name self
          = Some (default rzero (default ∅ losses0 !! name self))) as Hloss.
  { destruct (default ∅ losses0 !! name self) eqn:E; [done|].
    by rewrite lookup_insert_eq. }
  split; [done|]. split; [done|]. split; [done|]. split; [done|].
  split; [done|]. split.
  - intros k Hk. destruct (default ∅ losses0 !! name self); [done|].
    by rewrite lookup_insert_ne.
  - intros ds.
    match goal with |- ∃ _, accumulate_gradient _ ?s = _ ∧ _ =>
      destruct (accumulate_loop_append 0 ds s) as (l' & Hrun & _) end.
    + simpl. lia.
    + simpl. rewrite Hloss. eauto.
    + eexists. split; [exact Hrun|]. done.
Qed.

End RegistrationFacts.

(** ** The further properties on the concrete inputs *)

(** X1 on a component with listener 0 registered and listener 1 not. *)
Lemma predict_broadcast_witness :
  ∃ act store',
    predict (ex_transformer [0%nat]) [ex_doc [1; 2]] ex_store = Ok (act, store') ∧
    (∃ x', store' !! 0%nat = Some x' ∧ _batch_id x' = Some 3 ∧
           _outputs x' = Some (doc_data act) ∧ _backprop x' = None) ∧
    store' !! 1%nat = ex_store !! 1%nat.
Proof.
  destruct (predict (ex_transformer [0%nat]) [ex_doc [1; 2]] ex_store)
    as [[act store']|] eqn:Hrun; [|vm_compute in Hrun; discriminate].
  exists act, store'. split; [reflexivity|].
  destruct (predict_broadcast _ _ _ _ _ Hrun) as (_ & Hreg & Hother). split.
  - destruct (Hreg 0%nat (TransformerListener_init "transformer" 2))
      as (x' & Hx' & Hid & Hout & Hbp & _).
    + by_computation.
    + reflexivity.
    + exists x'. by repeat split.
  - apply Hother. by_computation.
Defined.

(** X2 and X3 on two listeners: listener 0 is handed
    [accumulate_gradient], and an object that is not registered is not
    touched. *)
Lemma update_then_forward_witness :
  ∃ store' st0 docs',
    update (ex_transformer [0; 1]%nat) ex_examples false None false
           ex_arrays ex_store = Ok (store', st0, docs') ∧
    ∃ x', store' !! 0%nat = Some x' ∧
          forward x' (eg_doc <$> ex_examples) true
          = Ok (Some (doc_data (trf_full st0)), Some CbAccumulateGradient).
Proof.
  destruct (update (ex_transformer [0; 1]%nat) ex_examples false None false
                   ex_arrays ex_store) as [[[store' st0] docs']|] eqn:Hupd;
    [|vm_compute in Hupd; discriminate].
  exists store', st0, docs'. split; [reflexivity|].
  apply (update_then_forward _ _ _ _ _ _ _ _ _ _ 0%nat
           (TransformerListener_init "transformer" 2) Hupd).
  - by_computation.
  - reflexivity.
Defined.

Lemma update_unregistered_unchanged_witness :
  ∃ store' st0 docs',
    update (ex_transformer [0%nat]) ex_examples false None false
           ex_arrays ex_store = Ok (store', st0, docs') ∧
    store' !! 1%nat = ex_store !! 1%nat.
Proof.
  destruct (update (ex_transformer [0%nat]) ex_examples false None false
                   ex_arrays ex_store) as [[[store' st0] docs']|] eqn:Hupd;
    [|vm_compute in Hupd; discriminate].
  exists store', st0, docs'. split; [reflexivity|].
  apply (update_unregistered_unchanged _ _ _ _ _ _ _ _ _ _ _ Hupd).
  by_computation.
Defined.

(** X4: the batch of [ex_doc [2; 1]] is accepted in place of that of
    [ex_doc [1; 2]], the batch of [ex_doc [1; 4]] is refused. *)
Lemma forward_accepts_equal_sum_witness :
  forward (receive (get_batch_id [ex_doc [1; 2]]) (doc_data ex_batch)
                   (Some CbBackprop) (TransformerListener_init "transformer" 2))
          [ex_doc [2; 1]] true
  = Ok (Some (doc_data ex_batch), Some CbBackprop) ∧
  forward (receive (get_batch_id [ex_doc [1; 2]]) (doc_data ex_batch)
                   (Some CbBackprop) (TransformerListener_init "transformer" 2))
          [ex_doc [1; 4]] true
  = Raise (ValueError (MismatchedIDs 5 (Some 3))).
Proof.
  split.
  - apply (forward_accepts_equal_sum (TransformerListener_init "transformer" 2)
             [ex_doc [1; 2]] [ex_doc [2; 1]]). reflexivity.
  - apply (proj2 (forward_accepts_equal_sum
                    (TransformerListener_init "transformer" 2)
                    [ex_doc [1; 2]] [ex_doc [1; 4]] (doc_data ex_batch)
                    (Some CbBackprop))).
    vm_compute. discriminate.
Defined.

(** X6 on a fresh listener and two documents. *)
Lemma forward_predict_mode_witness :
  ∃ cb, forward (TransformerListener_init "transformer" 2)
                [ex_doc [1]; ex_doc [2]] false
        = Ok (Some (trf_data <$> [ex_doc [1]; ex_doc [2]]), Some cb).
Proof.
  destruct (proj2 (forward_predict_mode
                     (TransformerListener_init "transformer" 2) ex_listener
                     [ex_doc [1]; ex_doc [2]]))
    as (outs & cb & Hrun & _ & Hout & _).
  exists cb. rewrite Hrun, Hout; [reflexivity|discriminate].
Defined.



(** X9, X11 and X13 on the first contribution of a step, X10 on the
    second one. *)
Lemma accumulate_gradient_only_accumulates_witness :
  ∃ st', accumulate_gradient ex_c1 ex_step = Ok st' ∧
         bp_trf_full_calls st' = [] ∧ finish_update_calls st' = 0%nat.
Proof.
  destruct (accumulate_gradient ex_c1 ex_step) as [st'|] eqn:Hrun;
    [|vm_compute in Hrun; discriminate].
  exists st'. split; [reflexivity|].
  destruct (accumulate_gradient_only_accumulates _ _ _ Hrun) as (H1 & H2 & _).
  split; [exact H1|exact H2].
Defined.

Lemma accumulate_gradient_loss_witness :
  ∃ st', accumulate_gradient ex_c2 ex_step1 = Ok st' ∧
         losses st' !! "transformer" = Some 1400.
Proof.
  destruct (accumulate_gradient ex_c2 ex_step1) as [st'|] eqn:Hrun;
    [|vm_compute in Hrun; discriminate].
  exists st'. split; [reflexivity|].
  apply (accumulate_gradient_loss ex_c2 ex_step1 st' 0 Hrun).
  - reflexivity.
  - intros a Ha. revert Ha.
    change (a ∈ [20; 21]%nat → a ∉ [10; 11]%nat).
    intros Ha Hin.
    repeat (apply elem_of_cons in Ha as [->|Ha];
            [revert Hin; by_computation|]).
    by apply elem_of_nil in Ha.
Defined.

Lemma first_contribution_accepted_witness :
  ∃ st', accumulate_gradient ex_c2 ex_step = Ok st' ∧
         d_tensors st' = tensors <$> ex_c2 ∧ arrays st' = arrays ex_step.
Proof.
  apply (first_contribution_accepted ex_c2 ex_step).
  - reflexivity.
  - by_computation.
Defined.


(** X13 on a step whose only contribution is [ex_c1]: the backward callable
    is called on the merge of [ex_c1], no optimizer step is taken. *)
Lemma backprop_dispatch_witness :
  ∃ d_docs st',
    backprop ex_c1 ex_step = Ok (d_docs, st') ∧
    bp_trf_full_calls st'
    = [ [ [ [[1; 1]; [1; 1]; [1; 1]]; [[2; 2]; [0; 0]; [0; 0]] ] ] ] ∧
    finish_update_calls st' = 0%nat.
Proof.
  destruct (backprop ex_c1 ex_step) as [[d_docs st']|] eqn:Hrun;
    [|vm_compute in Hrun; discriminate].
  exists d_docs, st'. split; [reflexivity|].
  destruct (proj2 (proj2 (backprop_dispatch ex_c1 ex_step)) d_docs st' Hrun)
    as (g & Hg & Hcalls & _ & _ & Hfin).
  split; [|exact Hfin].
  rewrite Hcalls. vm_compute in Hrun. injection Hrun as <- <-.
  vm_compute in Hg. by injection Hg as <-.
Defined.

(** X14 and X15 on a shim with a live model. *)
Lemma to_bytes_ok_iff_witness :
  is_ok (@to_bytes ex_msgpack ex_shim_live) = true.
Proof.
  apply (@to_bytes_ok_iff ex_msgpack ex_shim_live).
  right. split; eexists; reflexivity.
Defined.

Lemma to_bytes_live_bundle_witness :
  ∃ b msg td,
    @to_bytes ex_msgpack ex_shim_live = Ok b ∧
    @msgpack_loads ex_msgpack b = Ok (VDict msg) ∧
    msg !! "state" = Some (VBytes [Byte.x01; Byte.x02]) ∧
    msg !! "tokenizer" = Some (VDict td) ∧
    td !! "vocab.txt" = Some (VBytes [Byte.x61]) ∧
    td !! "merges.txt" = None.
Proof.
  destruct (@to_bytes_live_bundle ex_msgpack ex_shim_live ex_encoder
              (mkHFTokenizer [("vocab.txt", [Byte.x61])]) ex_encoder
              eq_refl eq_refl eq_refl)
    as (b & msg & td & Hb & Hmsg & _ & Hstate & Htok & Hfiles & _).
  exists b, msg, td. split; [exact Hb|]. split; [exact Hmsg|].
  split; [exact Hstate|]. split; [exact Htok|].
  split; rewrite Hfiles; reflexivity.
Defined.

(** X16 on bytes that decode to an integer, and on a map without a
    tokenizer entry. *)
Lemma from_bytes_malformed_witness :
  @from_bytes ex_msgpack ex_huggingface ex_shim_live (VInt 1) = Raise TypeError ∧
  @from_bytes ex_msgpack ex_huggingface ex_shim_live
    (VDict (<["config" := VDict ∅]> ∅))
  = Raise (KeyError "tokenizer").
Proof.
  split.
  - apply (proj1 (@from_bytes_malformed ex_msgpack ex_huggingface ex_shim_live
                    (VInt 1)) (VInt 1)); [reflexivity|discriminate].
  - apply (proj2 (@from_bytes_malformed ex_msgpack ex_huggingface ex_shim_live
                    (VDict (<["config" := VDict ∅]> ∅)))
             (<["config" := VDict ∅]> ∅) ["config"] "tokenizer"
             ["tokenizer_config"; "transformer_config"]).
    + reflexivity.
    + reflexivity.
    + intros k Hk. apply list_elem_of_singleton in Hk as ->.
      eexists. reflexivity.
    + reflexivity.
Defined.

(** X17: the bundle of the shim without model, decoded into the live one. *)
Lemma from_bytes_to_bytes_no_config_witness :
  ∃ b, @to_bytes ex_msgpack ex_shim_no_model = Ok b ∧
       @from_bytes ex_msgpack ex_huggingface ex_shim_live b = Ok ex_shim_live.
Proof.
  destruct (@to_bytes ex_msgpack ex_shim_no_model) as [b|] eqn:Hb;
    [|vm_compute in Hb; discriminate].
  exists b. split; [reflexivity|].
  apply (@from_bytes_to_bytes_no_config ex_msgpack ex_huggingface
           ex_shim_no_model ex_shim_live b Hb).
  left. reflexivity.
Defined.


(** X19 on the stream of three documents. *)
Lemma pipe_keeps_documents_witness :
  ∃ tr, pipe (ex_transformer []) ex_stream 1 false ex_store = Ok tr ∧
        concat (predict_calls tr) = eg2doc <$> ex_stream ∧
        doc_tokens <$> concat (yielded tr) = doc_tokens <$> (eg2doc <$> ex_stream) ∧
        length (yielded tr) = length (predict_calls tr).
Proof.
  destruct (pipe (ex_transformer []) ex_stream 1 false ex_store)
    as [tr|] eqn:Hrun; [|vm_compute in Hrun; discriminate].
  exists tr. split; [reflexivity|].
  apply (pipe_keeps_documents (ex_transformer []) ex_stream 1 false ex_store tr).
  - reflexivity.
  - reflexivity.
  - exact Hrun.
Defined.

(** X21: listener 1 is added to a component that has listener 0. *)
Lemma add_listener_takes_backprop_witness :
  ∃ store' st0 docs',
    update (add_listener (ex_transformer [0%nat]) 1%nat) ex_examples false None
           false ex_arrays ex_store = Ok (store', st0, docs') ∧
    store' !! 1%nat ≫= _backprop = Some CbBackprop ∧
    store' !! 0%nat ≫= _backprop = Some CbAccumulateGradient.
Proof.
  destruct (update (add_listener (ex_transformer [0%nat]) 1%nat) ex_examples
                   false None false ex_arrays ex_store)
    as [[[store' st0] docs']|] eqn:Hupd; [|vm_compute in Hupd; discriminate].
  exists store', st0, docs'. split; [reflexivity|].
  destruct (add_listener_takes_backprop _ _ _ _ _ _ _ _ _ _ _ Hupd)
    as [Hnew Hold].
  - intros l Hl.
    repeat (apply elem_of_cons in Hl as [->|Hl]; [by_computation|]).
    by apply elem_of_nil in Hl.
  - split; [exact Hnew|]. apply Hold; [by_computation|discriminate].
Defined.

(** X22 on a call of [update] without a [losses] dictionary. *)
Lemma update_initial_step_witness :
  ∃ store' st0 docs',
    update (ex_transformer [0; 1]%nat) ex_examples false None false
           ex_arrays ex_store = Ok (store', st0, docs') ∧
    d_tensors st0 = [] ∧
    losses st0 !! "transformer" = Some 0 ∧
    ∃ st1, accumulate_gradient ex_c1 st0 = Ok st1 ∧
           d_tensors st1 = tensors <$> ex_c1 ∧ arrays st1 = ex_arrays.
Proof.
  destruct (update (ex_transformer [0; 1]%nat) ex_examples false None false
                   ex_arrays ex_store) as [[[store' st0] docs']|] eqn:Hupd;
    [|vm_compute in Hupd; discriminate].
  exists store', st0, docs'. split; [reflexivity|].
  destruct (update_initial_step _ _ _ _ _ _ _ _ _ _ Hupd)
    as (Hd & _ & _ & _ & Hloss & _ & Hfirst).
  split; [exact Hd|]. split; [exact Hloss|]. exact (Hfirst ex_c1).
Defined.
